(** * Expense splitter: ledger, balances and settlements

    A shallow embedding of the core of [app.py] (class [ExpenseSplitter]) and
    of its earlier copy [Splitwise clone/splitwise clone.py].

    Modelling conventions.
    - Money.  Python's [float] amounts are modelled as exact rationals in
      canonical form ([Qc]), so that equality of amounts is Leibniz equality
      and every function below computes.  That model does not round.  What
      is proved on it is of two kinds: statements up to the tolerance 0.01
      or about the code's own comparisons and operation sequences, and
      failures shown on inputs where binary64 arithmetic gives the same
      values and the same comparisons.  Statements that equate sums added
      up in different orders are not of that kind: for them
      [calculate_balances] is embedded a second time over an arbitrary
      number system ([Numeric]), with the exact rationals and binary64 as
      instances.
    - Dictionaries.  A Python [dict] is an insertion-ordered association list
      ([Dict.t]); [Dict.set] overwrites in place or appends, as [d[k] = v]
      does.  Iteration order matters for the settlement planner.
    - The member registry (a Python [set]) is a list of names in the set's
      iteration order.
    - Exceptions.  Code that can raise returns a [result].
    - [uuid.uuid4()] and [datetime.now()] are inputs of [add_expense].
    - The Streamlit session state aliases the attributes of the splitter, and
      [save_data] only writes a file inside a [try]; neither is modelled. *)

From Stdlib Require Import ZArith QArith Qcanon Qcabs Lqa Lia List String Bool Permutation.
From Stdlib Require Import PrimFloat.
#[local] Set Warnings "-inexact-float".
Import ListNotations.
Local Open Scope string_scope.
Local Open Scope Qc_scope.
Local Open Scope list_scope.

(** ** Numbers *)

(** The literal [0.01]. *)
Definition eps : Qc := Q2Qc (1 # 100).

Definition Qcltb (x y : Qc) : bool :=
  match x ?= y with Lt => true | _ => false end.

Definition Qcleb (x y : Qc) : bool :=
  match x ?= y with Gt => false | _ => true end.

Definition Qceqb (x y : Qc) : bool :=
  match x ?= y with Eq => true | _ => false end.

(** [min(a, b)]: the first argument unless the second is strictly smaller. *)
Definition py_min (a b : Qc) : Qc := if Qcltb b a then b else a.

(** [abs(v)]. *)
Definition py_abs (v : Qc) : Qc := Qcabs v.

(** [sum(xs)]: left to right, starting from 0. *)
Definition py_sum (xs : list Qc) : Qc := fold_left Qcplus xs 0.

(** [len(xs)] as a number. *)
Definition py_len {A : Type} (xs : list A) : Qc :=
  Q2Qc (inject_Z (Z.of_nat (List.length xs))).

(** ** Exceptions *)

Inductive exn : Type :=
| ZeroDivisionError
| KeyError (k : string).

Inductive result (A : Type) : Type :=
| Ok (a : A)
| Raise (e : exn).
Arguments Ok {A} a.
Arguments Raise {A} e.

Definition bind {A B : Type} (c : result A) (f : A -> result B) : result B :=
  match c with
  | Ok a => f a
  | Raise e => Raise e
  end.

Notation "x <- c1 ;; c2" := (bind c1 (fun x => c2))
  (at level 61, c1 at next level, right associativity).

(** [x / y] on floats raises when the divisor is zero. *)
Definition py_div (x y : Qc) : result Qc :=
  if Qceqb y 0 then Raise ZeroDivisionError else Ok (x / y).

(** ** Dictionaries *)

Module Dict.

Definition t (V : Type) : Type := list (string * V).

Section Ops.
Context {V : Type}.

Definition empty : t V := [].

Fixpoint get (k : string) (d : t V) : option V :=
  match d with
  | [] => None
  | (k', v) :: d' => if String.eqb k' k then Some v else get k d'
  end.

(** [k in d] *)
Definition mem (k : string) (d : t V) : bool :=
  match get k d with Some _ => true | None => false end.

(** [d[k] = v] *)
Fixpoint set (k : string) (v : V) (d : t V) : t V :=
  match d with
  | [] => [(k, v)]
  | (k', v') :: d' =>
      if String.eqb k' k then (k', v) :: d' else (k', v') :: set k v d'
  end.

Definition items (d : t V) : list (string * V) := d.
Definition keys (d : t V) : list string := map fst d.
Definition values (d : t V) : list V := map snd d.

(** [{k: v for (k, v) in kvs}] *)
Definition of_list (kvs : list (string * V)) : t V :=
  fold_left (fun d kv => set (fst kv) (snd kv) d) kvs empty.

(** Truth value of an optional dictionary: [None] and [{}] are false. *)
Definition truthy (o : option (t V)) : bool :=
  match o with
  | Some (_ :: _) => true
  | _ => false
  end.

Definition unwrap (o : option (t V)) : t V :=
  match o with
  | Some d => d
  | None => []
  end.
End Ops.

End Dict.

(** ** Records *)

Module Expense.
Record t : Type := mk {
  id : string;
  description : string;
  amount : Qc;
  paid_by : list string;
  paid_amounts : Dict.t Qc;
  split_among : list string;
  splits : Dict.t Qc;
  date : string;
  group : string
}.
End Expense.

Module Settlement.
Record t : Type := mk {
  from : string;
  to : string;
  amount : Qc
}.
End Settlement.

(** The attributes of an [ExpenseSplitter]. *)
Record ExpenseSplitter : Type := mkSplitter {
  expenses : list Expense.t;
  groups : Dict.t (list string);
  members : list string
}.

Definition with_expenses (self : ExpenseSplitter) (es : list Expense.t) :=
  mkSplitter es (groups self) (members self).

(** ** [add_expense] *)

Definition equal_splits (amount : Qc) (split_among : list string)
  : result (Dict.t Qc) :=
  split_amount <- py_div amount (py_len split_among) ;;
  Ok (Dict.of_list (map (fun member => (member, split_amount)) split_among)).

(** The entries of the ratio comprehension, in evaluation order: only the
    members that have a weight, each division evaluated when reached. *)
Fixpoint ratio_entries (amount total_ratio : Qc) (ratio_splits : Dict.t Qc)
  (split_among : list string) : result (list (string * Qc)) :=
  match split_among with
  | [] => Ok []
  | member :: rest =>
      match Dict.get member ratio_splits with
      | Some r =>
          q <- py_div r total_ratio ;;
          kvs <- ratio_entries amount total_ratio ratio_splits rest ;;
          Ok ((member, q * amount) :: kvs)
      | None => ratio_entries amount total_ratio ratio_splits rest
      end
  end.

Definition ratio_split (amount : Qc) (ratio_splits : Dict.t Qc)
  (split_among : list string) : result (Dict.t Qc) :=
  let total_ratio := py_sum (Dict.values ratio_splits) in
  kvs <- ratio_entries amount total_ratio ratio_splits split_among ;;
  Ok (Dict.of_list kvs).

Definition zero_splits (split_among : list string) : Dict.t Qc :=
  Dict.of_list (map (fun member => (member, 0)) split_among).

Definition compute_splits (amount : Qc) (split_among : list string)
  (split_type : string) (custom_splits ratio_splits : option (Dict.t Qc))
  : result (Dict.t Qc) :=
  if split_type =? "equal" then
    equal_splits amount split_among
  else if (split_type =? "custom") && Dict.truthy custom_splits then
    Ok (Dict.unwrap custom_splits)
  else if (split_type =? "ratio") && Dict.truthy ratio_splits then
    ratio_split amount (Dict.unwrap ratio_splits) split_among
  else
    Ok (zero_splits split_among).

Definition add_expense (self : ExpenseSplitter) (uuid4 now : string)
  (description : string) (amount : Qc) (paid_by : list string)
  (paid_amounts : Dict.t Qc) (split_among : list string)
  (split_type : string) (custom_splits ratio_splits : option (Dict.t Qc))
  (group : string) : result (ExpenseSplitter * string) :=
  let expense_id := uuid4 in
  splits <- compute_splits amount split_among split_type
              custom_splits ratio_splits ;;
  let expense :=
    Expense.mk expense_id description amount paid_by paid_amounts
      split_among splits now group in
  Ok (with_expenses self (expenses self ++ [expense]), expense_id).

Definition delete_expense (self : ExpenseSplitter) (expense_id : string)
  : ExpenseSplitter :=
  with_expenses self
    (filter (fun exp => negb (Expense.id exp =? expense_id)) (expenses self)).

Definition in_set (x : string) (s : list string) : bool :=
  existsb (String.eqb x) s.

Definition add_member (self : ExpenseSplitter) (member_name : string)
  : ExpenseSplitter * bool :=
  if negb (member_name =? "") && negb (in_set member_name (members self)) then
    (mkSplitter (expenses self) (groups self) (members self ++ [member_name]),
     true)
  else (self, false).

Definition remove_member (self : ExpenseSplitter) (member_name : string)
  : ExpenseSplitter * bool :=
  if in_set member_name (members self) then
    (mkSplitter (expenses self) (groups self)
       (filter (fun m => negb (m =? member_name)) (members self)),
     true)
  else (self, false).

(** ** [calculate_balances] *)

Definition expenses_to_process (self : ExpenseSplitter)
  (group_filter : option string) : list Expense.t :=
  match group_filter with
  | Some g =>
      if negb (g =? "") && negb (g =? "All Groups") then
        filter (fun exp => Expense.group exp =? g) (expenses self)
      else expenses self
  | None => expenses self
  end.

(** [if payer in balances: balances[payer] += amount_paid] *)
Definition credit (balances : Dict.t Qc) (kv : string * Qc) : Dict.t Qc :=
  match Dict.get (fst kv) balances with
  | Some v => Dict.set (fst kv) (v + snd kv) balances
  | None => balances
  end.

(** [if member in balances: balances[member] -= share] *)
Definition debit (balances : Dict.t Qc) (kv : string * Qc) : Dict.t Qc :=
  match Dict.get (fst kv) balances with
  | Some v => Dict.set (fst kv) (v - snd kv) balances
  | None => balances
  end.

Definition process_expense (balances : Dict.t Qc) (expense : Expense.t)
  : Dict.t Qc :=
  fold_left debit (Dict.items (Expense.splits expense))
    (fold_left credit (Dict.items (Expense.paid_amounts expense)) balances).

Definition initial_balances (ms : list string) : Dict.t Qc :=
  fold_left (fun balances member => Dict.set member 0 balances) ms Dict.empty.

Definition calculate_balances (self : ExpenseSplitter)
  (group_filter : option string) : Dict.t Qc :=
  fold_left process_expense (expenses_to_process self group_filter)
    (initial_balances (members self)).

(** ** [get_settlements] *)

(** [creditors[creditor] -= settlement_amount]; a missing key raises. *)
Definition decrease (creditor : string) (x : Qc) (creditors : Dict.t Qc)
  : result (Dict.t Qc) :=
  match Dict.get creditor creditors with
  | Some v => Ok (Dict.set creditor (v - x) creditors)
  | None => Raise (KeyError creditor)
  end.

(** The inner loop for one debtor, over the snapshot [list(creditors.items())].
    The state is the remaining debt, the creditors dictionary and the
    settlements appended so far. *)
Fixpoint pay_creditors (debtor : string) (snapshot : list (string * Qc))
  (remaining_debt : Qc) (creditors : Dict.t Qc)
  (settlements : list Settlement.t)
  : result (Qc * Dict.t Qc * list Settlement.t) :=
  match snapshot with
  | [] => Ok (remaining_debt, creditors, settlements)
  | (creditor, credit_amount) :: rest =>
      if Qcleb remaining_debt eps then
        Ok (remaining_debt, creditors, settlements)
      else if Qcltb eps credit_amount then
        let settlement_amount := py_min remaining_debt credit_amount in
        creditors' <- decrease creditor settlement_amount creditors ;;
        pay_creditors debtor rest (remaining_debt - settlement_amount)
          creditors'
          (settlements ++ [Settlement.mk debtor creditor settlement_amount])
      else pay_creditors debtor rest remaining_debt creditors settlements
  end.

(** The outer loop over [debtors.items()]. *)
Fixpoint settle_debtors (debtors : list (string * Qc))
  (creditors : Dict.t Qc) (settlements : list Settlement.t)
  : result (list Settlement.t) :=
  match debtors with
  | [] => Ok settlements
  | (debtor, debt_amount) :: rest =>
      st <- pay_creditors debtor (Dict.items creditors) debt_amount
              creditors settlements ;;
      settle_debtors rest (snd (fst st)) (snd st)
  end.

Definition creditors_of (balances : Dict.t Qc) : Dict.t Qc :=
  Dict.of_list (filter (fun kv => Qcltb eps (snd kv)) (Dict.items balances)).

Definition debtors_of (balances : Dict.t Qc) : Dict.t Qc :=
  Dict.of_list
    (map (fun kv => (fst kv, py_abs (snd kv)))
       (filter (fun kv => Qcltb (snd kv) (- eps)) (Dict.items balances))).

Definition settlements_of (balances : Dict.t Qc) : result (list Settlement.t) :=
  settle_debtors (Dict.items (debtors_of balances)) (creditors_of balances) [].

Definition get_settlements (self : ExpenseSplitter)
  (group_filter : option string) : result (list Settlement.t) :=
  settlements_of (calculate_balances self group_filter).

(** ** The earlier copy, [Splitwise clone/splitwise clone.py]

    Its [add_expense] has no ratio policy; [delete_expense],
    [calculate_balances] and [get_settlements] are the same text as in
    [app.py] and are shared with it. *)

Module SplitwiseClone.

Definition compute_splits (amount : Qc) (split_among : list string)
  (split_type : string) (custom_splits : option (Dict.t Qc))
  : result (Dict.t Qc) :=
  if split_type =? "equal" then
    equal_splits amount split_among
  else if (split_type =? "custom") && Dict.truthy custom_splits then
    Ok (Dict.unwrap custom_splits)
  else
    Ok (zero_splits split_among).

Definition add_expense (self : ExpenseSplitter) (uuid4 now : string)
  (description : string) (amount : Qc) (paid_by : list string)
  (paid_amounts : Dict.t Qc) (split_among : list string)
  (split_type : string) (custom_splits : option (Dict.t Qc))
  (group : string) : result (ExpenseSplitter * string) :=
  let expense_id := uuid4 in
  splits <- compute_splits amount split_among split_type custom_splits ;;
  let expense :=
    Expense.mk expense_id description amount paid_by paid_amounts
      split_among splits now group in
  Ok (with_expenses self (expenses self ++ [expense]), expense_id).

Definition calculate_balances := calculate_balances.
Definition get_settlements := get_settlements.

End SplitwiseClone.

(** ** The caller's gate in [main]

    The "Add Expense" button of the page is enabled by [can_add_expense];
    [split_type] is here the capitalised label of the radio button, which the
    page lowers before it calls [add_expense]. *)

Definition nonempty {A : Type} (xs : list A) : bool :=
  match xs with [] => false | _ => true end.

Definition can_add_expense (description : string) (amount : Qc)
  (payers : list string) (paid_amounts : Dict.t Qc)
  (split_among : list string) (split_type : string)
  (custom_splits ratio_splits : Dict.t Qc) : bool :=
  negb (description =? "") &&
  Qcltb 0 amount &&
  nonempty payers &&
  nonempty split_among &&
  ((split_type =? "Equal") ||
   ((split_type =? "Custom") &&
    Qcltb (py_abs (py_sum (Dict.values custom_splits) - amount)) eps) ||
   ((split_type =? "Ratio") && nonempty ratio_splits)) &&
  ((List.length payers =? 1)%nat ||
   Qcltb (py_abs (py_sum (Dict.values paid_amounts) - amount)) eps).

(** ** Vocabulary for the balance claims *)

(** The sum of the entries of [d] filed under [member]; a dictionary has at
    most one. *)
Definition entries_of (member : string) (d : Dict.t Qc) : Qc :=
  py_sum (Dict.values (filter (fun kv => fst kv =? member) (Dict.items d))).

(** What [member] paid, and what [member] owes, over a list of expenses. *)
Definition total_paid (member : string) (es : list Expense.t) : Qc :=
  py_sum (map (fun e => entries_of member (Expense.paid_amounts e)) es).

Definition total_owed (member : string) (es : list Expense.t) : Qc :=
  py_sum (map (fun e => entries_of member (Expense.splits e)) es).


(** ** [export_data] and [import_data]

    The text written by [json.dumps] and read back by [json.loads] is
    represented by the document it denotes.  The [json] module is a library,
    not code of this program; on the values kept in the ledger (strings,
    numbers, lists and dictionaries with string keys) reading a document
    back yields the values that were written. *)

#[local] Unset Elimination Schemes.
Inductive json : Type :=
| JNull
| JBool (b : bool)
| JNumber (x : Qc)
| JString (s : string)
| JArray (xs : list json)
| JObject (o : list (string * json)).
#[local] Set Elimination Schemes.

Definition obind {A B : Type} (c : option A) (f : A -> option B) : option B :=
  match c with
  | Some a => f a
  | None => None
  end.

Notation "x <~ c1 ;; c2" := (obind c1 (fun x => c2))
  (at level 61, c1 at next level, right associativity).

Fixpoint traverse {A B : Type} (f : A -> option B) (xs : list A)
  : option (list B) :=
  match xs with
  | [] => Some []
  | x :: rest =>
      y <~ f x ;;
      ys <~ traverse f rest ;;
      Some (y :: ys)
  end.

(** The ledger's values as documents. *)
Definition json_of_names (names : list string) : json :=
  JArray (map JString names).

Definition json_of_amounts (d : Dict.t Qc) : json :=
  JObject (map (fun kv => (fst kv, JNumber (snd kv))) d).

Definition json_of_expense (e : Expense.t) : json :=
  JObject
    [("id", JString (Expense.id e));
     ("description", JString (Expense.description e));
     ("amount", JNumber (Expense.amount e));
     ("paid_by", json_of_names (Expense.paid_by e));
     ("paid_amounts", json_of_amounts (Expense.paid_amounts e));
     ("split_among", json_of_names (Expense.split_among e));
     ("splits", json_of_amounts (Expense.splits e));
     ("date", JString (Expense.date e));
     ("group", JString (Expense.group e))].

Definition json_of_groups (gs : Dict.t (list string)) : json :=
  JObject (map (fun kv => (fst kv, json_of_names (snd kv))) gs).

(** Documents read back as the ledger's values. *)
Definition string_of_json (j : json) : option string :=
  match j with JString s => Some s | _ => None end.

Definition number_of_json (j : json) : option Qc :=
  match j with JNumber x => Some x | _ => None end.

Definition names_of_json (j : json) : option (list string) :=
  match j with
  | JArray xs => traverse string_of_json xs
  | _ => None
  end.

Definition amounts_of_json (j : json) : option (Dict.t Qc) :=
  match j with
  | JObject o =>
      traverse (fun kv => x <~ number_of_json (snd kv) ;; Some (fst kv, x)) o
  | _ => None
  end.

Definition expense_of_json (j : json) : option Expense.t :=
  match j with
  | JObject o =>
      id <~ obind (Dict.get "id" o) string_of_json ;;
      description <~ obind (Dict.get "description" o) string_of_json ;;
      amount <~ obind (Dict.get "amount" o) number_of_json ;;
      paid_by <~ obind (Dict.get "paid_by" o) names_of_json ;;
      paid_amounts <~ obind (Dict.get "paid_amounts" o) amounts_of_json ;;
      split_among <~ obind (Dict.get "split_among" o) names_of_json ;;
      splits <~ obind (Dict.get "splits" o) amounts_of_json ;;
      date <~ obind (Dict.get "date" o) string_of_json ;;
      group <~ obind (Dict.get "group" o) string_of_json ;;
      Some (Expense.mk id description amount paid_by paid_amounts split_among
              splits date group)
  | _ => None
  end.

Definition expenses_of_json (j : json) : option (list Expense.t) :=
  match j with
  | JArray xs => traverse expense_of_json xs
  | _ => None
  end.

Definition groups_of_json (j : json) : option (Dict.t (list string)) :=
  match j with
  | JObject o =>
      traverse (fun kv => ns <~ names_of_json (snd kv) ;; Some (fst kv, ns)) o
  | _ => None
  end.

(** [set(names)]: the names without repetition. *)
Definition py_set (names : list string) : list string :=
  fold_left (fun s name => if in_set name s then s else s ++ [name]) names [].

(** [data.get(key, default)] *)
Definition get_default (key : string) (default : json)
  (data : list (string * json)) : json :=
  match Dict.get key data with
  | Some j => j
  | None => default
  end.

Definition export_data (self : ExpenseSplitter) (now : string) : json :=
  JObject
    [("expenses", JArray (map json_of_expense (expenses self)));
     ("groups", json_of_groups (groups self));
     ("members", json_of_names (members self));
     ("export_date", JString now)].

(** [import_data] returns its boolean together with the attributes it
    leaves behind.  A document that is not an object, or that lacks one of
    the two required keys, is refused with [False]; so is, here, a document
    whose fields do not have the shape of ledger values, which the typed
    ledger cannot hold. *)
Definition import_data (self : ExpenseSplitter) (json_data : json)
  : ExpenseSplitter * bool :=
  match json_data with
  | JObject data =>
      if Dict.mem "expenses" data && Dict.mem "members" data then
        match expenses_of_json (get_default "expenses" (JArray []) data),
              groups_of_json (get_default "groups" (JObject []) data),
              names_of_json (get_default "members" (JArray []) data) with
        | Some es, Some gs, Some ms => (mkSplitter es gs (py_set ms), true)
        | _, _, _ => (self, false)
        end
      else (self, false)
  | _ => (self, false)
  end.

(** ** Sequences of [add_expense] calls *)






(** The entries of the ratio comprehension when the total weight is not 0. *)
Definition weighted (amount total_ratio : Qc) (ratio_splits : Dict.t Qc)
  (split_among : list string) : list (string * Qc) :=
  flat_map
    (fun member =>
       match Dict.get member ratio_splits with
       | Some r => [(member, r / total_ratio * amount)]
       | None => []
       end)
    split_among.


(** ** Vocabulary for the settlement claim *)

(** "Each debtor pays each listed creditor the listed amount": the payer's
    balance rises by the amount and the receiver's falls by it. *)
Definition pay (balances : Dict.t Qc) (s : Settlement.t) : Dict.t Qc :=
  debit (credit balances (Settlement.from s, Settlement.amount s))
    (Settlement.to s, Settlement.amount s).

Definition settle (balances : Dict.t Qc) (settlements : list Settlement.t)
  : Dict.t Qc :=
  fold_left pay settlements balances.

(** What [member] sends and receives over a list of settlements. *)
Definition sent (member : string) (settlements : list Settlement.t) : Qc :=
  py_sum (map (fun s => if Settlement.from s =? member
                        then Settlement.amount s else 0) settlements).

Definition received (member : string) (settlements : list Settlement.t) : Qc :=
  py_sum (map (fun s => if Settlement.to s =? member
                        then Settlement.amount s else 0) settlements).

(** The two tests that partition the members. *)
Definition is_creditor (kv : string * Qc) : bool := Qcltb eps (snd kv).
Definition is_debtor (kv : string * Qc) : bool := Qcltb (snd kv) (- eps).

(** ** The remaining methods of [ExpenseSplitter] *)

(** [add_group]: a name already in use is refused. *)
Definition add_group (self : ExpenseSplitter) (group_name : string)
  (names : list string) : ExpenseSplitter * bool :=
  if Dict.mem group_name (groups self) then (self, false)
  else
    (mkSplitter (expenses self) (Dict.set group_name names (groups self))
       (members self),
     true).

Definition get_group_expenses (self : ExpenseSplitter) (group_name : string)
  : list Expense.t :=
  filter (fun exp => Expense.group exp =? group_name) (expenses self).

(** *** The data file

    What [expense_data.json] holds: nothing, text that [json.load] cannot
    read, or a document.  [save_data] writes inside a [try]; the write is
    taken to succeed. *)
Inductive data_file : Type :=
| NoFile
| Unreadable
| Document (j : json).

Definition empty_splitter : ExpenseSplitter := mkSplitter [] [] [].

Definition save_data (self : ExpenseSplitter) : data_file :=
  Document
    (JObject
       [("expenses", JArray (map json_of_expense (expenses self)));
        ("groups", json_of_groups (groups self));
        ("members", json_of_names (members self))]).

(** [load_data] starts from empty data when there is no file and when
    anything raises: unreadable text, or a document that is not an object
    (no [get]).  Missing keys take their defaults.  Fields that do not have
    the shape of ledger values, which the typed ledger cannot hold, also
    give empty data here. *)
Definition load_data (file : data_file) : ExpenseSplitter :=
  match file with
  | Document (JObject data) =>
      match expenses_of_json (get_default "expenses" (JArray []) data),
            groups_of_json (get_default "groups" (JObject []) data),
            names_of_json (get_default "members" (JArray []) data) with
      | Some es, Some gs, Some ms => mkSplitter es gs (py_set ms)
      | _, _, _ => empty_splitter
      end
  | _ => empty_splitter
  end.

(** *** The "Add Expense" button of [main]

    [str.lower] on the labels of the radio button, which are ASCII. *)
Definition lower_ascii (c : Ascii.ascii) : Ascii.ascii :=
  let n := Ascii.nat_of_ascii c in
  if ((65 <=? n) && (n <=? 90))%nat then Ascii.ascii_of_nat (n + 32) else c.

Fixpoint py_lower (s : string) : string :=
  match s with
  | EmptyString => EmptyString
  | String c rest => String (lower_ascii c) (py_lower rest)
  end.

(** A click on the button: nothing happens while the button is disabled;
    otherwise the page prepares the parameters and calls [add_expense]. *)
Definition add_expense_clicked (self : ExpenseSplitter) (uuid4 now : string)
  (description : string) (amount : Qc) (payers : list string)
  (paid_amounts : Dict.t Qc) (split_among : list string)
  (split_type : string) (custom_splits ratio_splits : Dict.t Qc)
  (selected_group : string) : option (result (ExpenseSplitter * string)) :=
  if can_add_expense description amount payers paid_amounts split_among
       split_type custom_splits ratio_splits
  then
    let final_custom_splits :=
      if split_type =? "Custom" then Some custom_splits else None in
    let final_ratio_splits :=
      if split_type =? "Ratio" then Some ratio_splits else None in
    Some (add_expense self uuid4 now description amount payers paid_amounts
            split_among (py_lower split_type) final_custom_splits
            final_ratio_splits selected_group)
  else None.

(** *** Counting *)

(** The creditors still above 0.01 in a creditors dictionary. *)
Definition live (creditors : Dict.t Qc) : nat :=
  List.length (filter is_creditor creditors).

(** ** [calculate_balances] over any number system

    The balance computation uses three things of its numbers: the constant
    [0.0], [+=] and [-=].  Here it is embedded with these as parameters, so
    that what is proved holds whatever the additions round to.  Of an
    expense it reads the group, [paid_amounts] and [splits]. *)

Module Numeric.

Record arith : Type := mkArith {
  num : Type;
  zero : num;
  add : num -> num -> num;
  sub : num -> num -> num
}.

(** The exact rationals of the rest of this file, and Python's floats. *)
Definition exact : arith := mkArith Qc 0 Qcplus Qcminus.

Definition binary64 : arith :=
  mkArith PrimFloat.float 0%float PrimFloat.add PrimFloat.sub.

Record expense (N : arith) : Type := mkExpense {
  group : string;
  paid_amounts : Dict.t (num N);
  splits : Dict.t (num N)
}.
Arguments mkExpense {N} group paid_amounts splits.
Arguments group {N} e.
Arguments paid_amounts {N} e.
Arguments splits {N} e.

Section Code.
Variable N : arith.

Definition expenses_to_process (expenses : list (expense N))
  (group_filter : option string) : list (expense N) :=
  match group_filter with
  | Some g =>
      if negb (g =? "") && negb (g =? "All Groups") then
        filter (fun exp => group exp =? g) expenses
      else expenses
  | None => expenses
  end.

(** [if payer in balances: balances[payer] += amount_paid] *)
Definition credit (balances : Dict.t (num N)) (kv : string * num N)
  : Dict.t (num N) :=
  match Dict.get (fst kv) balances with
  | Some v => Dict.set (fst kv) (add N v (snd kv)) balances
  | None => balances
  end.

(** [if member in balances: balances[member] -= share] *)
Definition debit (balances : Dict.t (num N)) (kv : string * num N)
  : Dict.t (num N) :=
  match Dict.get (fst kv) balances with
  | Some v => Dict.set (fst kv) (sub N v (snd kv)) balances
  | None => balances
  end.

Definition process_expense (balances : Dict.t (num N)) (e : expense N)
  : Dict.t (num N) :=
  fold_left debit (Dict.items (splits e))
    (fold_left credit (Dict.items (paid_amounts e)) balances).

Definition initial_balances (ms : list string) : Dict.t (num N) :=
  fold_left (fun balances member => Dict.set member (zero N) balances) ms
    Dict.empty.

Definition calculate_balances (members : list string)
  (expenses : list (expense N)) (group_filter : option string)
  : Dict.t (num N) :=
  fold_left process_expense (expenses_to_process expenses group_filter)
    (initial_balances members).

(** *** Vocabulary for the claims *)

(** The expenses a filter selects: all of them when there is no filter
    ([None], the empty string, or the page's "All Groups" entry), otherwise
    those filed under the group. *)
Definition in_scope (group_filter : option string) (e : expense N) : bool :=
  match group_filter with
  | None => true
  | Some g =>
      if (g =? "") || (g =? "All Groups") then true else group e =? g
  end.

(** The expense names the member, as a payer or as a participant. *)
Definition mentions (member : string) (e : expense N) : bool :=
  Dict.mem member (paid_amounts e) || Dict.mem member (splits e).

(** What one expense does to a member's running balance [v]: the member's
    payment is added, then the member's share is subtracted. *)
Definition member_step (member : string) (v : num N) (e : expense N)
  : num N :=
  fold_left (fun v kv => if fst kv =? member then sub N v (snd kv) else v)
    (splits e)
    (fold_left (fun v kv => if fst kv =? member then add N v (snd kv) else v)
       (paid_amounts e) v).

(** The member's running balance over the expenses, from [0.0]. *)
Definition running_balance (member : string) (es : list (expense N))
  : num N :=
  fold_left (member_step member) es (zero N).

(** [sum(xs)] *)
Definition total (xs : list (num N)) : num N :=
  fold_left (add N) xs (zero N).

(** The sum of the member's entries in a dictionary. *)
Definition entries_of (member : string) (d : Dict.t (num N)) : num N :=
  total (Dict.values (filter (fun kv => fst kv =? member) (Dict.items d))).

(** "The sum of that member's entries in [paid_amounts] minus the sum of
    that member's entries in [splits]" over a list of expenses. *)
Definition paid_minus_owed (member : string) (es : list (expense N))
  : num N :=
  sub N (total (map (fun e => entries_of member (paid_amounts e)) es))
    (total (map (fun e => entries_of member (splits e)) es)).

End Code.

Arguments expenses_to_process {N} expenses group_filter.
Arguments credit {N} balances kv.
Arguments debit {N} balances kv.
Arguments process_expense {N} balances e.
Arguments calculate_balances {N} members expenses group_filter.
Arguments in_scope {N} group_filter e.
Arguments mentions {N} member e.
Arguments member_step {N} member v e.
Arguments running_balance {N} member es.
Arguments paid_minus_owed {N} member es.

(** What [calculate_balances] reads of a stored expense. *)
Definition of_expense (e : Expense.t) : expense exact :=
  @mkExpense exact (Expense.group e) (Expense.paid_amounts e)
    (Expense.splits e).

(** An expense with Python's floats. *)
Definition float_expense (group : string)
  (paid_amounts splits : Dict.t PrimFloat.float) : expense binary64 :=
  @mkExpense binary64 group paid_amounts splits.

End Numeric.

(** * Properties *)

(** ** Arithmetic on canonical rationals *)

Lemma Qcltb_lt (x y : Qc) : Qcltb x y = true <-> x < y.
Proof.
  unfold Qcltb. rewrite Qclt_alt. destruct (x ?= y); split; congruence.
Qed.

Lemma Qcltb_ge (x y : Qc) : Qcltb x y = false <-> y <= x.
Proof.
  split; intros H.
  - apply Qcnot_lt_le. intros Hlt. apply Qcltb_lt in Hlt. congruence.
  - destruct (Qcltb x y) eqn:E; [|reflexivity].
    apply Qcltb_lt in E. exfalso. exact (Qcle_not_lt _ _ H E).
Qed.

Lemma Qcleb_le (x y : Qc) : Qcleb x y = true <-> x <= y.
Proof.
  unfold Qcleb. rewrite Qcle_alt. destruct (x ?= y); split; congruence.
Qed.

Lemma Qcleb_gt (x y : Qc) : Qcleb x y = false <-> y < x.
Proof.
  split; intros H.
  - apply Qcnot_le_lt. intros Hle. apply Qcleb_le in Hle. congruence.
  - destruct (Qcleb x y) eqn:E; [|reflexivity].
    apply Qcleb_le in E. exfalso. exact (Qcle_not_lt _ _ E H).
Qed.

Lemma Qceqb_eq (x y : Qc) : Qceqb x y = true <-> x = y.
Proof.
  unfold Qceqb. rewrite Qceq_alt. destruct (x ?= y); split; congruence.
Qed.

Lemma this_plus (x y : Qc) : (this (x + y) == this x + this y)%Q.
Proof. exact (Qred_correct _). Qed.

Lemma this_opp (x : Qc) : (this (- x) == - this x)%Q.
Proof. exact (Qred_correct _). Qed.

Lemma this_minus (x y : Qc) : (this (x - y) == this x - this y)%Q.
Proof.
  unfold Qcminus. rewrite this_plus.
  apply Qplus_comp; [reflexivity | exact (Qred_correct _)].
Qed.

Lemma this_mult (x y : Qc) : (this (x * y) == this x * this y)%Q.
Proof. exact (Qred_correct _). Qed.

Lemma this_Q2Qc (q : Q) : (this (Q2Qc q) == q)%Q.
Proof. exact (Qred_correct _). Qed.

Lemma Qc_eq_this (x y : Qc) : x = y -> (this x == this y)%Q.
Proof. intros ->. reflexivity. Qed.

(** Linear arithmetic over [Qc], by translation to [Q]. *)
Ltac qc_lra :=
  repeat match goal with
  | H : @eq Qc _ _ |- _ => apply Qc_eq_this in H
  | |- @eq Qc _ _ => apply Qc_is_canon
  end;
  unfold Qcle, Qclt, eps in *;
  repeat first
    [ rewrite this_plus in * | rewrite this_minus in *
    | rewrite this_opp in * | rewrite this_mult in *
    | rewrite this_Q2Qc in * ];
  lra.

Lemma eps_pos : 0 < eps.
Proof. reflexivity. Qed.

Lemma py_min_spec (a b : Qc) :
  (b < a /\ py_min a b = b) \/ (a <= b /\ py_min a b = a).
Proof.
  unfold py_min. destruct (Qcltb b a) eqn:E.
  - left. split; [apply Qcltb_lt; exact E | reflexivity].
  - right. split; [apply Qcltb_ge; exact E | reflexivity].
Qed.

Lemma fold_left_Qcplus (xs : list Qc) (a : Qc) :
  fold_left Qcplus xs a = a + fold_left Qcplus xs 0.
Proof.
  revert a. induction xs as [|x xs IH]; intros a; simpl.
  - ring.
  - rewrite IH. rewrite (IH (0 + x)). ring.
Qed.

Lemma py_sum_nil : py_sum [] = 0.
Proof. reflexivity. Qed.

Lemma py_sum_cons (x : Qc) (xs : list Qc) : py_sum (x :: xs) = x + py_sum xs.
Proof.
  unfold py_sum. simpl. rewrite fold_left_Qcplus. ring.
Qed.

Lemma py_sum_app (xs ys : list Qc) : py_sum (xs ++ ys) = py_sum xs + py_sum ys.
Proof.
  induction xs as [|x xs IH]; simpl.
  - rewrite py_sum_nil. ring.
  - rewrite !py_sum_cons, IH. ring.
Qed.

Lemma py_sum_perm (xs ys : list Qc) :
  Permutation xs ys -> py_sum xs = py_sum ys.
Proof.
  induction 1 as [|x l l' _ IH|x y l|l l' l'' _ IH1 _ IH2].
  - reflexivity.
  - rewrite !py_sum_cons, IH. reflexivity.
  - rewrite !py_sum_cons. ring.
  - congruence.
Qed.

(** ** Dictionaries *)

Module DictFacts.
Import Dict.

Section Facts.
Context {V : Type}.
Implicit Types (d : Dict.t V) (k : string) (v : V).

Lemma get_set_same k v d : get k (set k v d) = Some v.
Proof.
  induction d as [|[k' v'] d IH]; simpl.
  - rewrite String.eqb_refl. reflexivity.
  - destruct (String.eqb k' k) eqn:E; simpl; rewrite E; auto.
Qed.

Lemma get_set_other k k' v d :
  k <> k' -> get k' (set k v d) = get k' d.
Proof.
  intros Hne. induction d as [|[k0 v0] d IH]; simpl.
  - destruct (String.eqb_spec k k'); [contradiction | reflexivity].
  - destruct (String.eqb_spec k0 k) as [->|Hk]; simpl.
    + destruct (String.eqb_spec k k'); [contradiction | reflexivity].
    + destruct (String.eqb k0 k'); auto.
Qed.

Lemma get_None_iff k d : get k d = None <-> ~ In k (keys d).
Proof.
  induction d as [|[k' v'] d IH]; simpl.
  - tauto.
  - destruct (String.eqb_spec k' k) as [->|Hk].
    + split; [discriminate | tauto].
    + rewrite IH. tauto.
Qed.

Lemma get_Some_In k v d : get k d = Some v -> In k (keys d).
Proof.
  intros H. destruct (in_dec string_dec k (keys d)) as [?|Hn]; auto.
  apply get_None_iff in Hn. congruence.
Qed.

Lemma In_get_Some k d : In k (keys d) -> exists v, get k d = Some v.
Proof.
  intros H. destruct (get k d) as [v|] eqn:E; eauto.
  apply get_None_iff in E. contradiction.
Qed.

Lemma get_In_items k v d : get k d = Some v -> In (k, v) d.
Proof.
  induction d as [|[k' v'] d IH]; simpl; [discriminate|].
  destruct (String.eqb_spec k' k) as [->|Hk].
  - intros [= ->]. auto.
  - auto.
Qed.

Lemma In_items_get k v d : NoDup (keys d) -> In (k, v) d -> get k d = Some v.
Proof.
  induction d as [|[k' v'] d IH]; simpl; [tauto|].
  intros Hnd [[= -> ->]|Hin].
  - rewrite String.eqb_refl. reflexivity.
  - inversion Hnd as [|? ? Hk' Hnd']; subst.
    destruct (String.eqb_spec k' k) as [->|Hk]; auto.
    exfalso. apply Hk'. apply (in_map fst) in Hin. exact Hin.
Qed.

Lemma keys_set_present k v d :
  In k (keys d) -> keys (set k v d) = keys d.
Proof.
  induction d as [|[k' v'] d IH]; simpl; [tauto|].
  intros H. destruct (String.eqb_spec k' k) as [->|Hk]; simpl.
  - reflexivity.
  - f_equal. apply IH. destruct H; [contradiction | assumption].
Qed.

Lemma keys_set_absent k v d :
  ~ In k (keys d) -> set k v d = d ++ [(k, v)].
Proof.
  induction d as [|[k' v'] d IH]; simpl; [reflexivity|].
  intros H. destruct (String.eqb_spec k' k) as [->|Hk].
  - tauto.
  - f_equal. apply IH. tauto.
Qed.

Lemma In_keys_set k k' v d :
  In k' (keys (set k v d)) <-> k' = k \/ In k' (keys d).
Proof.
  destruct (in_dec string_dec k (keys d)) as [Hin|Hn].
  - rewrite keys_set_present by assumption.
    split; [tauto | intros [->|?]; assumption].
  - rewrite keys_set_absent by assumption. unfold keys.
    rewrite map_app, in_app_iff. simpl. split; intros; intuition.
Qed.

Lemma NoDup_keys_set k v d : NoDup (keys d) -> NoDup (keys (set k v d)).
Proof.
  intros Hnd. destruct (in_dec string_dec k (keys d)) as [Hin|Hn].
  - rewrite keys_set_present by assumption. exact Hnd.
  - rewrite keys_set_absent by assumption. unfold keys.
    rewrite map_app. simpl. apply NoDup_app; auto.
    + constructor; [simpl; tauto | constructor].
    + intros x Hx [<-|[]]. contradiction.
Qed.

Lemma of_list_acc (kvs : list (string * V)) d :
  NoDup (keys d ++ map fst kvs) ->
  fold_left (fun d kv => set (fst kv) (snd kv) d) kvs d = d ++ kvs.
Proof.
  revert d. induction kvs as [|[k v] kvs IH]; intros d Hnd; simpl.
  - rewrite app_nil_r. reflexivity.
  - simpl in Hnd. rewrite keys_set_absent.
    + rewrite IH.
      * rewrite <- app_assoc. reflexivity.
      * unfold keys. rewrite map_app. simpl. rewrite <- app_assoc.
        exact Hnd.
    + apply NoDup_remove_2 in Hnd. intros Hin. apply Hnd.
      apply in_or_app. left. exact Hin.
Qed.

(** A comprehension over distinct keys lists its entries in order. *)
Lemma of_list_NoDup (kvs : list (string * V)) :
  NoDup (map fst kvs) -> of_list kvs = kvs.
Proof.
  intros Hnd. unfold of_list, empty. rewrite of_list_acc; auto.
Qed.

Lemma NoDup_keys_fold_set (kvs : list (string * V)) d :
  NoDup (keys d) ->
  NoDup (keys (fold_left (fun d kv => set (fst kv) (snd kv) d) kvs d)).
Proof.
  revert d. induction kvs as [|kv kvs IH]; intros d Hnd; simpl; auto.
  apply IH. apply NoDup_keys_set. exact Hnd.
Qed.

Lemma NoDup_keys_of_list (kvs : list (string * V)) :
  NoDup (keys (of_list kvs)).
Proof. apply NoDup_keys_fold_set. constructor. Qed.

Lemma In_keys_fold_set (kvs : list (string * V)) d k :
  In k (keys (fold_left (fun d kv => set (fst kv) (snd kv) d) kvs d))
  <-> In k (keys d) \/ In k (map fst kvs).
Proof.
  revert d. induction kvs as [|kv kvs IH]; intros d; simpl.
  - tauto.
  - rewrite IH, In_keys_set. intuition.
Qed.

Lemma In_keys_of_list (kvs : list (string * V)) k :
  In k (keys (of_list kvs)) <-> In k (map fst kvs).
Proof.
  unfold of_list. rewrite In_keys_fold_set. simpl. tauto.
Qed.

(** Two dictionaries with the same key sequence and the same lookups
    are the same dictionary. *)
Lemma ext d1 d2 :
  NoDup (keys d1) -> keys d1 = keys d2 ->
  (forall k, In k (keys d1) -> get k d1 = get k d2) -> d1 = d2.
Proof.
  revert d2. induction d1 as [|[k v] d1 IH]; intros [|[k2 v2] d2];
    simpl; try discriminate; auto.
  intros Hnd [= <- Hk] Hget. inversion Hnd as [|? ? Hnk Hnd']; subst.
  assert (v = v2) as <-.
  { specialize (Hget k (or_introl eq_refl)).
    rewrite String.eqb_refl in Hget. congruence. }
  f_equal. apply IH; auto.
  intros k' Hin. specialize (Hget k' (or_intror Hin)).
  destruct (String.eqb_spec k k') as [->|Hne]; [contradiction|].
  exact Hget.
Qed.
End Facts.

End DictFacts.

(** ** Lists *)

Lemma filter_all_true {A : Type} (f : A -> bool) (l : list A) :
  (forall x, In x l -> f x = true) -> filter f l = l.
Proof.
  induction l as [|x l IH]; intros H; cbn [filter]; [reflexivity|].
  rewrite (H x (or_introl eq_refl)). f_equal. apply IH.
  intros y Hy. apply H. right. exact Hy.
Qed.

Lemma filter_all_false {A : Type} (f : A -> bool) (l : list A) :
  (forall x, In x l -> f x = false) -> filter f l = [].
Proof.
  induction l as [|x l IH]; intros H; cbn [filter]; [reflexivity|].
  rewrite (H x (or_introl eq_refl)). apply IH.
  intros y Hy. apply H. right. exact Hy.
Qed.

(** ** Comprehensions with a constant value *)

Section ConstComprehension.
Import Dict.
Variable c : Qc.

Let entries (l : list string) := map (fun member => (member, c)) l.

Lemma In_set_inv {V : Type} (k k' : string) (v v' : V) (d : Dict.t V) :
  In (k', v') (set k v d) -> (k', v') = (k, v) \/ In (k', v') d.
Proof.
  induction d as [|[k0 v0] d IH]; simpl.
  - intros [H|[]]; auto.
  - destruct (String.eqb_spec k0 k) as [->|Hne]; simpl.
    + intros [H|H]; auto.
    + intros [H|H]; auto. destruct (IH H); auto.
Qed.

Lemma In_fold_set_inv {V : Type} (kvs : list (string * V)) (d : Dict.t V) kv :
  In kv (fold_left (fun d kv => set (fst kv) (snd kv) d) kvs d) ->
  In kv d \/ In kv kvs.
Proof.
  revert d. induction kvs as [|[k v] kvs IH]; intros d; simpl; auto.
  intros H. destruct (IH _ H) as [H1|H1]; auto.
  destruct kv as [k' v']. destruct (In_set_inv _ _ _ _ _ H1); auto.
Qed.

Lemma const_items (l : list string) (m : string) (v : Qc) :
  In (m, v) (of_list (entries l)) -> In m l /\ v = c.
Proof.
  intros H. apply In_fold_set_inv in H. destruct H as [[]|H].
  unfold entries in H. apply in_map_iff in H.
  destruct H as [x [[= <- <-] Hx]]. auto.
Qed.

Lemma const_get_acc (l : list string) (d : Dict.t Qc) (m : string) :
  In m l ->
  get m (fold_left (fun d kv => set (fst kv) (snd kv) d) (entries l) d)
  = Some c.
Proof.
  revert d. induction l as [|x l IH]; intros d; simpl; [tauto|].
  intros [->|Hin].
  - destruct (in_dec string_dec m l) as [Hl|Hl]; [apply IH; exact Hl|].
    clear IH. generalize (DictFacts.get_set_same m c d).
    generalize (set m c d). induction l as [|y l IHl]; intros d' Hd'; simpl.
    + exact Hd'.
    + apply IHl.
      * simpl in Hl. tauto.
      * rewrite DictFacts.get_set_other; [exact Hd'|].
        simpl in Hl. intros ->. tauto.
  - apply IH. exact Hin.
Qed.

Lemma const_get (l : list string) (m : string) :
  In m l -> get m (of_list (entries l)) = Some c.
Proof. apply const_get_acc. Qed.

Lemma const_values (l : list string) (v : Qc) :
  In v (values (of_list (entries l))) -> v = c.
Proof.
  unfold values. intros H. apply in_map_iff in H.
  destruct H as [[m v'] [<- H]]. apply const_items in H. tauto.
Qed.
End ConstComprehension.

Lemma py_sum_all_zero (xs : list Qc) :
  (forall x, In x xs -> x = 0) -> py_sum xs = 0.
Proof.
  induction xs as [|x xs IH]; intros H; [reflexivity|].
  rewrite py_sum_cons, IH.
  - rewrite (H x) by (left; reflexivity). ring.
  - intros y Hy. apply H. right. exact Hy.
Qed.

Lemma py_len_nil {A : Type} : py_len (@nil A) = 0.
Proof. apply Qc_is_canon. reflexivity. Qed.

Lemma py_len_cons {A : Type} (x : A) (xs : list A) :
  py_len (x :: xs) = 1 + py_len xs.
Proof.
  unfold py_len. apply Qc_is_canon.
  rewrite this_plus, !this_Q2Qc. cbn [List.length].
  rewrite Nat2Z.inj_succ. unfold Z.succ. rewrite inject_Z_plus.
  change (this 1) with 1%Q. change (inject_Z 1) with 1%Q. ring.
Qed.

Lemma py_len_nonneg {A : Type} (xs : list A) : 0 <= py_len xs.
Proof.
  induction xs as [|x xs IH].
  - unfold py_len, Qcle. simpl. lra.
  - rewrite py_len_cons. qc_lra.
Qed.

Lemma py_len_nonzero {A : Type} (x : A) (xs : list A) :
  Qceqb (py_len (x :: xs)) 0 = false.
Proof.
  destruct (Qceqb (py_len (x :: xs)) 0) eqn:E; [|reflexivity].
  apply Qceqb_eq in E. rewrite py_len_cons in E.
  pose proof (py_len_nonneg xs). qc_lra.
Qed.


Lemma equal_splits_nonempty (amount : Qc) (m : string) (rest : list string) :
  equal_splits amount (m :: rest) =
  Ok (Dict.of_list
        (map (fun member => (member, amount / py_len (m :: rest)))
           (m :: rest))).
Proof.
  unfold equal_splits, py_div. rewrite py_len_nonzero. reflexivity.
Qed.


(** ** Balances *)

Section BalanceFacts.
Import Dict DictFacts.

Lemma entries_of_nil m : entries_of m [] = 0.
Proof. reflexivity. Qed.

Lemma entries_of_cons m k x d :
  entries_of m ((k, x) :: d)
  = (if k =? m then x else 0) + entries_of m d.
Proof.
  unfold entries_of, items. cbn [filter fst].
  destruct (k =? m); cbn [values map snd].
  - apply py_sum_cons.
  - fold (values (filter (fun kv => fst kv =? m) d)). ring.
Qed.

Lemma entries_of_absent m d : ~ In m (keys d) -> entries_of m d = 0.
Proof.
  induction d as [|[k x] d IH]; intros H; [reflexivity|].
  rewrite entries_of_cons. simpl in H.
  destruct (String.eqb_spec k m) as [->|Hne]; [tauto|].
  rewrite IH by tauto. ring.
Qed.

Lemma keys_credit b kv : keys (credit b kv) = keys b.
Proof.
  unfold credit. destruct (get (fst kv) b) eqn:E; [|reflexivity].
  apply keys_set_present. eapply get_Some_In. exact E.
Qed.

Lemma keys_debit b kv : keys (debit b kv) = keys b.
Proof.
  unfold debit. destruct (get (fst kv) b) eqn:E; [|reflexivity].
  apply keys_set_present. eapply get_Some_In. exact E.
Qed.

Lemma get_credit b k x m v :
  get m b = Some v ->
  get m (credit b (k, x)) = Some (v + (if k =? m then x else 0)).
Proof.
  intros Hm. unfold credit. cbn [fst snd].
  destruct (String.eqb_spec k m) as [->|Hne].
  - rewrite Hm, get_set_same. reflexivity.
  - destruct (get k b).
    + rewrite get_set_other by assumption. rewrite Hm. f_equal. ring.
    + rewrite Hm. f_equal. ring.
Qed.

Lemma get_debit b k x m v :
  get m b = Some v ->
  get m (debit b (k, x)) = Some (v - (if k =? m then x else 0)).
Proof.
  intros Hm. unfold debit. cbn [fst snd].
  destruct (String.eqb_spec k m) as [->|Hne].
  - rewrite Hm, get_set_same. reflexivity.
  - destruct (get k b).
    + rewrite get_set_other by assumption. rewrite Hm. f_equal. ring.
    + rewrite Hm. f_equal. ring.
Qed.

Lemma get_fold_credit d b m v :
  get m b = Some v ->
  get m (fold_left credit d b) = Some (v + entries_of m d).
Proof.
  revert b v. induction d as [|[k x] d IH]; intros b v Hm; simpl.
  - rewrite Hm, entries_of_nil. f_equal. ring.
  - rewrite (IH _ _ (get_credit b k x m v Hm)), entries_of_cons.
    f_equal. ring.
Qed.

Lemma get_fold_debit d b m v :
  get m b = Some v ->
  get m (fold_left debit d b) = Some (v - entries_of m d).
Proof.
  revert b v. induction d as [|[k x] d IH]; intros b v Hm; simpl.
  - rewrite Hm, entries_of_nil. f_equal. ring.
  - rewrite (IH _ _ (get_debit b k x m v Hm)), entries_of_cons.
    f_equal. ring.
Qed.

Lemma keys_fold_credit d b : keys (fold_left credit d b) = keys b.
Proof.
  revert b. induction d as [|kv d IH]; intros b; simpl; [reflexivity|].
  rewrite IH. apply keys_credit.
Qed.

Lemma keys_fold_debit d b : keys (fold_left debit d b) = keys b.
Proof.
  revert b. induction d as [|kv d IH]; intros b; simpl; [reflexivity|].
  rewrite IH. apply keys_debit.
Qed.

Lemma keys_process_expense b e : keys (process_expense b e) = keys b.
Proof.
  unfold process_expense. rewrite keys_fold_debit. apply keys_fold_credit.
Qed.

Lemma get_process_expense b e m v :
  get m b = Some v ->
  get m (process_expense b e)
  = Some (v + entries_of m (Expense.paid_amounts e)
            - entries_of m (Expense.splits e)).
Proof.
  intros Hm. unfold process_expense.
  apply get_fold_debit. apply get_fold_credit. exact Hm.
Qed.

Lemma keys_fold_process es b :
  keys (fold_left process_expense es b) = keys b.
Proof.
  revert b. induction es as [|e es IH]; intros b; simpl; [reflexivity|].
  rewrite IH. apply keys_process_expense.
Qed.

Lemma get_fold_process es b m v :
  get m b = Some v ->
  get m (fold_left process_expense es b)
  = Some (v + total_paid m es - total_owed m es).
Proof.
  unfold total_paid, total_owed.
  revert b v. induction es as [|e es IH]; intros b v Hm; simpl.
  - rewrite Hm, py_sum_nil. f_equal. ring.
  - rewrite (IH _ _ (get_process_expense b e m v Hm)), !py_sum_cons.
    f_equal. ring.
Qed.

Lemma initial_balances_comprehension ms :
  initial_balances ms = of_list (map (fun member => (member, 0)) ms).
Proof.
  unfold initial_balances, of_list. generalize (@empty Qc).
  induction ms as [|m ms IH]; intros d; simpl; [reflexivity|].
  apply IH.
Qed.

Lemma keys_initial_balances ms m :
  In m (keys (initial_balances ms)) <-> In m ms.
Proof.
  rewrite initial_balances_comprehension, In_keys_of_list, map_map.
  cbn [fst]. rewrite map_id. tauto.
Qed.

Lemma NoDup_initial_balances ms : NoDup (keys (initial_balances ms)).
Proof.
  rewrite initial_balances_comprehension. apply NoDup_keys_of_list.
Qed.

Lemma get_initial_balances ms m :
  In m ms -> get m (initial_balances ms) = Some 0.
Proof.
  rewrite initial_balances_comprehension. apply const_get.
Qed.

Lemma keys_calculate_balances self gf :
  keys (calculate_balances self gf) = keys (initial_balances (members self)).
Proof. apply keys_fold_process. Qed.

Lemma get_calculate_balances self gf m :
  In m (members self) ->
  get m (calculate_balances self gf)
  = Some (total_paid m (expenses_to_process self gf)
          - total_owed m (expenses_to_process self gf)).
Proof.
  intros Hin. unfold calculate_balances.
  rewrite (get_fold_process _ _ m 0) by (apply get_initial_balances; auto).
  f_equal. ring.
Qed.

Lemma Permutation_filter' {A : Type} (f : A -> bool) (l l' : list A) :
  Permutation l l' -> Permutation (filter f l) (filter f l').
Proof.
  induction 1 as [|x l l' _ IH|x y l|l l' l'' _ IH1 _ IH2]; simpl.
  - constructor.
  - destruct (f x); auto.
  - destruct (f x), (f y); auto. constructor.
  - eapply perm_trans; eassumption.
Qed.

Lemma Permutation_expenses_to_process es es' g g' ms ms' gf :
  Permutation es es' ->
  Permutation (expenses_to_process (mkSplitter es g ms) gf)
    (expenses_to_process (mkSplitter es' g' ms') gf).
Proof.
  intros H. unfold expenses_to_process. cbn [expenses].
  destruct gf as [gname|]; [|exact H].
  destruct (negb (gname =? "") && negb (gname =? "All Groups"))%bool;
    [apply Permutation_filter'|]; exact H.
Qed.
End BalanceFacts.

Section BalanceSums.
Import Dict DictFacts.








End BalanceSums.

(** ** Documents *)

Lemma traverse_map {A B : Type} (f : A -> option B) (g : B -> A)
  (ys : list B) :
  (forall y, f (g y) = Some y) -> traverse f (map g ys) = Some ys.
Proof.
  intros H. induction ys as [|y ys IH]; simpl; [reflexivity|].
  rewrite H. simpl. rewrite IH. reflexivity.
Qed.

Lemma names_of_json_of_names (names : list string) :
  names_of_json (json_of_names names) = Some names.
Proof. apply traverse_map. reflexivity. Qed.

Lemma amounts_of_json_of_amounts (d : Dict.t Qc) :
  amounts_of_json (json_of_amounts d) = Some d.
Proof.
  unfold amounts_of_json, json_of_amounts.
  apply (traverse_map _ (fun kv => (fst kv, JNumber (snd kv)))).
  intros [k x]. reflexivity.
Qed.

Lemma expense_of_json_of_expense (e : Expense.t) :
  expense_of_json (json_of_expense e) = Some e.
Proof.
  destruct e. unfold expense_of_json, json_of_expense.
  cbn [Dict.get String.eqb Ascii.eqb Bool.eqb obind string_of_json
         number_of_json Expense.id Expense.description Expense.amount
         Expense.paid_by Expense.paid_amounts Expense.split_among
         Expense.splits Expense.date Expense.group].
  rewrite !names_of_json_of_names, !amounts_of_json_of_amounts.
  reflexivity.
Qed.

Lemma expenses_of_json_of_expenses (es : list Expense.t) :
  expenses_of_json (JArray (map json_of_expense es)) = Some es.
Proof. apply traverse_map. exact expense_of_json_of_expense. Qed.

Lemma groups_of_json_of_groups (gs : Dict.t (list string)) :
  groups_of_json (json_of_groups gs) = Some gs.
Proof.
  unfold groups_of_json, json_of_groups.
  apply (traverse_map _ (fun kv => (fst kv, json_of_names (snd kv)))).
  intros [k ns]. cbn [fst snd]. rewrite names_of_json_of_names. reflexivity.
Qed.

Lemma in_set_In (x : string) (s : list string) :
  in_set x s = true <-> In x s.
Proof.
  unfold in_set. rewrite existsb_exists. split.
  - intros [y [Hy E]]. apply String.eqb_eq in E. subst. exact Hy.
  - intros H. exists x. split; [exact H | apply String.eqb_refl].
Qed.

Lemma In_py_set_acc (names acc : list string) (x : string) :
  In x (fold_left (fun s name => if in_set name s then s else s ++ [name])
          names acc)
  <-> In x acc \/ In x names.
Proof.
  revert acc. induction names as [|n names IH]; intros acc; simpl.
  - tauto.
  - rewrite IH. destruct (in_set n acc) eqn:E.
    + apply in_set_In in E. split; [tauto|].
      intros [H|[<-|H]]; auto.
    + rewrite in_app_iff. simpl. tauto.
Qed.

Lemma In_py_set (names : list string) (x : string) :
  In x (py_set names) <-> In x names.
Proof. unfold py_set. rewrite In_py_set_acc. simpl. tauto. Qed.

(** ** Split policies *)

Section SplitPolicies.
Import Dict DictFacts.


Lemma ratio_entries_weighted amount total_ratio r split_among :
  total_ratio <> 0 ->
  ratio_entries amount total_ratio r split_among
  = Ok (weighted amount total_ratio r split_among).
Proof.
  intros Hnz.
  assert (E : Qceqb total_ratio 0 = false).
  { apply not_true_is_false. intros H. apply Qceqb_eq in H. contradiction. }
  induction split_among as [|m rest IH]; simpl; [reflexivity|].
  destruct (get m r) as [w|]; [|exact IH].
  unfold py_div. rewrite E. cbn [bind]. rewrite IH. reflexivity.
Qed.









End SplitPolicies.




(** ** Settlements *)

Section SettleFacts.
Import Dict DictFacts.

Lemma sent_nil m : sent m [] = 0.
Proof. reflexivity. Qed.

Lemma received_nil m : received m [] = 0.
Proof. reflexivity. Qed.

Lemma sent_cons m x ss :
  sent m (x :: ss)
  = (if Settlement.from x =? m then Settlement.amount x else 0) + sent m ss.
Proof. unfold sent. cbn [map]. apply py_sum_cons. Qed.

Lemma received_cons m x ss :
  received m (x :: ss)
  = (if Settlement.to x =? m then Settlement.amount x else 0)
    + received m ss.
Proof. unfold received. cbn [map]. apply py_sum_cons. Qed.

Lemma sent_app m ss ss' : sent m (ss ++ ss') = sent m ss + sent m ss'.
Proof. unfold sent. rewrite map_app. apply py_sum_app. Qed.

Lemma received_app m ss ss' :
  received m (ss ++ ss') = received m ss + received m ss'.
Proof. unfold received. rewrite map_app. apply py_sum_app. Qed.

Lemma py_sum_nonneg (xs : list Qc) :
  (forall x, In x xs -> 0 <= x) -> 0 <= py_sum xs.
Proof.
  induction xs as [|x xs IH]; intros H.
  - rewrite py_sum_nil. apply Qcle_refl.
  - rewrite py_sum_cons.
    assert (0 <= x) by (apply H; left; reflexivity).
    assert (0 <= py_sum xs) by (apply IH; intros y Hy; apply H; right; auto).
    qc_lra.
Qed.

Lemma received_nonneg m ss :
  Forall (fun x => 0 <= Settlement.amount x) ss -> 0 <= received m ss.
Proof.
  intros H. apply py_sum_nonneg. intros y Hy. apply in_map_iff in Hy.
  destruct Hy as [x [<- Hx]]. rewrite Forall_forall in H.
  destruct (Settlement.to x =? m); [apply H; exact Hx | apply Qcle_refl].
Qed.

Lemma sent_nonneg m ss :
  Forall (fun x => 0 <= Settlement.amount x) ss -> 0 <= sent m ss.
Proof.
  intros H. apply py_sum_nonneg. intros y Hy. apply in_map_iff in Hy.
  destruct Hy as [x [<- Hx]]. rewrite Forall_forall in H.
  destruct (Settlement.from x =? m); [apply H; exact Hx | apply Qcle_refl].
Qed.

Lemma sent_none m ss :
  Forall (fun x => Settlement.from x <> m) ss -> sent m ss = 0.
Proof.
  intros H. apply py_sum_all_zero. intros y Hy. apply in_map_iff in Hy.
  destruct Hy as [x [<- Hx]]. rewrite Forall_forall in H.
  destruct (String.eqb_spec (Settlement.from x) m) as [E|]; [|reflexivity].
  exfalso. exact (H x Hx E).
Qed.

Lemma received_none m ss :
  Forall (fun x => Settlement.to x <> m) ss -> received m ss = 0.
Proof.
  intros H. apply py_sum_all_zero. intros y Hy. apply in_map_iff in Hy.
  destruct Hy as [x [<- Hx]]. rewrite Forall_forall in H.
  destruct (String.eqb_spec (Settlement.to x) m) as [E|]; [|reflexivity].
  exfalso. exact (H x Hx E).
Qed.

Lemma sent_all d ss :
  Forall (fun x => Settlement.from x = d) ss ->
  sent d ss = py_sum (map Settlement.amount ss).
Proof.
  intros H. unfold sent. f_equal. apply map_ext_in. intros x Hx.
  rewrite Forall_forall in H. rewrite (H x Hx), String.eqb_refl. reflexivity.
Qed.

Lemma get_pay b s m v :
  get m b = Some v ->
  get m (pay b s)
  = Some (v + (if Settlement.from s =? m then Settlement.amount s else 0)
            - (if Settlement.to s =? m then Settlement.amount s else 0)).
Proof.
  intros H. unfold pay. apply get_debit. apply get_credit. exact H.
Qed.

Lemma keys_pay b s : keys (pay b s) = keys b.
Proof. unfold pay. rewrite keys_debit. apply keys_credit. Qed.

Lemma keys_settle ss b : keys (settle b ss) = keys b.
Proof.
  unfold settle. revert b. induction ss as [|s ss IH]; intros b; simpl.
  - reflexivity.
  - rewrite IH. apply keys_pay.
Qed.

Lemma get_settle ss b m v :
  get m b = Some v ->
  get m (settle b ss) = Some (v + sent m ss - received m ss).
Proof.
  unfold settle. revert b v. induction ss as [|s ss IH]; intros b v H; simpl.
  - rewrite H, sent_nil, received_nil. f_equal. ring.
  - rewrite (IH _ _ (get_pay b s m v H)), sent_cons, received_cons.
    f_equal. ring.
Qed.


End SettleFacts.

(** ** The settlement planner *)

Section Planner.
Import Dict DictFacts.

(** What one pass over the creditors guarantees for the debtor at hand. *)
Lemma pay_creditors_spec (debtor : string) :
  forall (snapshot : list (string * Qc)) (r : Qc) (C : Dict.t Qc)
         (S : list Settlement.t),
    NoDup (keys snapshot) ->
    (forall k v, In (k, v) snapshot -> get k C = Some v) ->
    (forall k v, get k C = Some v -> 0 <= v) ->
    0 <= r ->
    exists r' C' S1,
      pay_creditors debtor snapshot r C S = Ok (r', C', S ++ S1)
      /\ keys C' = keys C
      /\ Forall (fun x => Settlement.from x = debtor /\
                          In (Settlement.to x) (keys snapshot) /\
                          0 <= Settlement.amount x) S1
      /\ r' = r - py_sum (map Settlement.amount S1)
      /\ 0 <= r'
      /\ (forall k v, get k C = Some v ->
            get k C' = Some (v - received k S1))
      /\ (forall k v, get k C' = Some v -> 0 <= v)
      /\ (r' <= eps \/
          forall k v, In k (keys snapshot) -> get k C' = Some v -> v <= eps).
Proof.
  induction snapshot as [|[k v] rest IH]; intros r C S Hnd Hsnap Hpos Hr.
  - exists r, C, []. rewrite app_nil_r. cbn [pay_creditors map].
    repeat split; auto.
    + rewrite py_sum_nil. ring.
    + intros k v H. rewrite H, received_nil. f_equal. ring.
    + right. intros k v [].
  - cbn [pay_creditors].
    inversion Hnd as [|? ? Hk Hnd']; subst.
    assert (Hrest : forall k' v', In (k', v') rest -> k' <> k).
    { intros k' v' Hin ->. apply Hk. apply (in_map fst) in Hin. exact Hin. }
    destruct (Qcleb r eps) eqn:Ebreak.
    + (* break *)
      exists r, C, []. rewrite app_nil_r. cbn [map].
      repeat split; auto.
      * rewrite py_sum_nil. ring.
      * intros k' v' H. rewrite H, received_nil. f_equal. ring.
      * left. apply Qcleb_le. exact Ebreak.
    + apply Qcleb_gt in Ebreak.
      assert (Hkv : get k C = Some v) by (apply Hsnap; left; reflexivity).
      destruct (Qcltb eps v) eqn:Ecredit.
      * (* a settlement *)
        apply Qcltb_lt in Ecredit.
        set (a := py_min r v).
        assert (Ha : 0 <= a /\ a <= r /\ a <= v /\ (a = v \/ a = r)).
        { unfold a. pose proof eps_pos.
          destruct (py_min_spec r v) as [[H1 ->]|[H1 ->]];
            repeat split; auto; qc_lra. }
        destruct Ha as [Ha0 [Har [Hav Hcase]]].
        unfold decrease. rewrite Hkv. cbn [bind].
        set (C1 := set k (v - a) C).
        set (x := Settlement.mk debtor k a).
        assert (Hk1 : get k C1 = Some (v - a)) by apply get_set_same.
        assert (Hother : forall k', k' <> k -> get k' C1 = get k' C).
        { intros k' Hne. apply get_set_other. congruence. }
        destruct (IH (r - a) C1 (S ++ [x])) as
          [r' [C' [S1 [Hrun [Hkeys [Hall [Hr' [Hr'0 [Hget [Hpos' Hdone]]]]]]]]]].
        { exact Hnd'. }
        { intros k' v' Hin. rewrite Hother by (eapply Hrest; exact Hin).
          apply Hsnap. right. exact Hin. }
        { intros k' v'. destruct (string_dec k' k) as [->|Hne].
          - rewrite Hk1. intros [= <-]. qc_lra.
          - rewrite Hother by exact Hne. apply Hpos. }
        { qc_lra. }
        assert (Hamounts : Forall (fun y => 0 <= Settlement.amount y) S1).
        { eapply Forall_impl; [|exact Hall]. cbv beta. tauto. }
        exists r', C', (x :: S1).
        split; [rewrite Hrun, <- app_assoc; reflexivity|].
        split.
        { rewrite Hkeys. apply keys_set_present.
          eapply get_Some_In. exact Hkv. }
        split.
        { constructor.
          - cbn. repeat split; auto.
          - eapply Forall_impl; [|exact Hall]. cbv beta.
            intros y [H1 [H2 H3]]. repeat split; auto. right. exact H2. }
        split.
        { rewrite Hr'. cbn [map]. rewrite py_sum_cons. cbn. ring. }
        split; [exact Hr'0|].
        split.
        { intros k' v' H. rewrite received_cons. cbn [Settlement.to x].
          destruct (String.eqb_spec k k') as [<-|Hne].
          - rewrite Hkv in H. injection H as <-.
            rewrite (Hget k (v - a) Hk1). cbn. f_equal. ring.
          - rewrite (Hget k' v').
            + f_equal. ring.
            + rewrite Hother by congruence. exact H. }
        split; [exact Hpos'|].
        destruct Hcase as [Hfull|Hfull].
        { destruct Hdone as [Hdone|Hdone]; [left; exact Hdone|].
          right. intros k' v' [Heq|Hin] H.
          - cbn in Heq. subst k'.
            rewrite (Hget k (v - a) Hk1) in H. injection H as <-.
            pose proof (received_nonneg k S1 Hamounts).
            pose proof eps_pos. qc_lra.
          - eapply Hdone; eassumption. }
        { left. pose proof (py_sum_nonneg (map Settlement.amount S1)) as Hs.
          assert (0 <= py_sum (map Settlement.amount S1)).
          { apply Hs. intros y Hy. apply in_map_iff in Hy.
            destruct Hy as [z [<- Hz]]. rewrite Forall_forall in Hamounts.
            apply Hamounts. exact Hz. }
          pose proof eps_pos. clear Hs. qc_lra. }
      * (* nothing left with this creditor *)
        apply Qcltb_ge in Ecredit.
        destruct (IH r C S) as
          [r' [C' [S1 [Hrun [Hkeys [Hall [Hr' [Hr'0 [Hget [Hpos' Hdone]]]]]]]]]];
          auto.
        { intros k' v' Hin. apply Hsnap. right. exact Hin. }
        assert (Hamounts : Forall (fun y => 0 <= Settlement.amount y) S1).
        { eapply Forall_impl; [|exact Hall]. cbv beta. tauto. }
        exists r', C', S1. repeat split; auto.
        { eapply Forall_impl; [|exact Hall]. cbv beta.
          intros y [H1 [H2 H3]]. repeat split; auto. right. exact H2. }
        destruct Hdone as [Hdone|Hdone]; [left; exact Hdone|].
        right. intros k' v' [Heq|Hin] H.
        { cbn in Heq. subst k'.
          rewrite (Hget k v Hkv) in H. injection H as <-.
          pose proof (received_nonneg k S1 Hamounts). qc_lra. }
        { eapply Hdone; eassumption. }
Qed.

(** What the loop over the debtors guarantees: nobody pays more than the
    debt, nobody receives more than the credit, and at the end either every
    debt or every credit is down to 0.01 or less. *)
Lemma settle_debtors_spec :
  forall (debtors : list (string * Qc)) (C : Dict.t Qc)
         (S : list Settlement.t),
    NoDup (keys debtors) -> NoDup (keys C) ->
    (forall d debt, In (d, debt) debtors -> 0 <= debt) ->
    (forall k v, get k C = Some v -> 0 <= v) ->
    exists S1,
      settle_debtors debtors C S = Ok (S ++ S1)
      /\ Forall (fun x => In (Settlement.from x) (keys debtors) /\
                          In (Settlement.to x) (keys C) /\
                          0 <= Settlement.amount x) S1
      /\ (forall d debt, In (d, debt) debtors -> 0 <= debt - sent d S1)
      /\ (forall k v, get k C = Some v -> 0 <= v - received k S1)
      /\ ((forall d debt, In (d, debt) debtors -> debt - sent d S1 <= eps)
          \/ (forall k v, get k C = Some v -> v - received k S1 <= eps)).
Proof.
  induction debtors as [|[d debt] rest IH]; intros C S Hnd HndC Hdebt Hpos.
  - exists []. rewrite app_nil_r. cbn [settle_debtors].
    split; [reflexivity|]. split; [constructor|].
    split; [intros d debt []|]. split.
    + intros k v H. rewrite received_nil. apply Hpos in H. qc_lra.
    + left. intros d debt [].
  - cbn [settle_debtors].
    inversion Hnd as [|? ? Hd Hnd']; subst.
    destruct (pay_creditors_spec d (items C) debt C S) as
      [r' [C' [Sa [Hrun [Hkeys [Hall [Hr' [Hr'0 [Hget [Hpos' Hdone]]]]]]]]]];
      auto.
    { intros k v Hin. apply In_items_get; assumption. }
    { apply (Hdebt d debt). left. reflexivity. }
    rewrite Hrun. cbn [bind fst snd].
    destruct (IH C' (S ++ Sa)) as [Sb [Hrun' [Hall' [Hrem [Hcred Hend]]]]];
      auto.
    { rewrite Hkeys. exact HndC. }
    { intros d' debt' Hin. apply (Hdebt d' debt'). right. exact Hin. }
    assert (HposA : Forall (fun x => 0 <= Settlement.amount x) Sa).
    { eapply Forall_impl; [|exact Hall]. cbv beta. tauto. }
    assert (HposB : Forall (fun x => 0 <= Settlement.amount x) Sb).
    { eapply Forall_impl; [|exact Hall']. cbv beta. tauto. }
    assert (HfromA : Forall (fun x => Settlement.from x = d) Sa).
    { eapply Forall_impl; [|exact Hall]. cbv beta. tauto. }
    assert (Hhead : debt - sent d (Sa ++ Sb) = r').
    { rewrite sent_app, (sent_all d Sa HfromA), (sent_none d Sb).
      - rewrite Hr'. ring.
      - eapply Forall_impl; [|exact Hall']. cbv beta.
        intros x [H _] E. rewrite E in H. contradiction. }
    assert (Htail : forall d' debt', In (d', debt') rest ->
              debt' - sent d' (Sa ++ Sb) = debt' - sent d' Sb).
    { intros d' debt' Hin. rewrite sent_app, (sent_none d' Sa); [ring|].
      eapply Forall_impl; [|exact HfromA]. cbv beta. intros x -> ->.
      apply Hd. apply (in_map fst) in Hin. exact Hin. }
    exists (Sa ++ Sb).
    split; [rewrite Hrun', app_assoc; reflexivity|].
    split.
    { apply Forall_app. split.
      - eapply Forall_impl; [|exact Hall]. cbv beta.
        intros x [H1 [H2 H3]]. repeat split; auto. left. symmetry. exact H1.
      - eapply Forall_impl; [|exact Hall']. cbv beta.
        intros x [H1 [H2 H3]]. repeat split; auto.
        + right. exact H1.
        + rewrite <- Hkeys. exact H2. }
    split.
    { intros d' debt' [[= <- <-]|Hin].
      - rewrite Hhead. exact Hr'0.
      - rewrite (Htail _ _ Hin). eapply Hrem. exact Hin. }
    split.
    { intros k v H. rewrite received_app.
      pose proof (Hcred k _ (Hget k v H)). qc_lra. }
    destruct Hend as [Hend|Hend].
    + destruct Hdone as [Hdone|Hdone].
      * left. intros d' debt' [[= <- <-]|Hin].
        -- rewrite Hhead. exact Hdone.
        -- rewrite (Htail _ _ Hin). eapply Hend. exact Hin.
      * right. intros k v H. rewrite received_app.
        pose proof (Hdone k (v - received k Sa)
                      (get_Some_In _ _ _ H) (Hget k v H)).
        pose proof (received_nonneg k Sb HposB). qc_lra.
    + right. intros k v H. rewrite received_app.
      pose proof (Hend k _ (Hget k v H)). qc_lra.
Qed.
End Planner.

(** ** Lists of numbers that sum to zero *)







(** ** Creditors, debtors and the plan for a balance vector *)

Section Plan.
Import Dict DictFacts.

Lemma In_keys_filter {V : Type} (f : string * V -> bool) (d : Dict.t V) k :
  In k (keys (filter f d)) -> exists v, In (k, v) d /\ f (k, v) = true.
Proof.
  unfold keys. intros H. apply in_map_iff in H.
  destruct H as [[k' v] [E H]]. cbn in E. subst k'.
  apply filter_In in H. exists v. exact H.
Qed.

Lemma NoDup_keys_filter {V : Type} (f : string * V -> bool) (d : Dict.t V) :
  NoDup (keys d) -> NoDup (keys (filter f d)).
Proof.
  induction d as [|[k v] d IH]; intros H; cbn [filter]; [constructor|].
  inversion H as [|? ? Hk Hd]; subst.
  destruct (f (k, v)); [|apply IH; exact Hd].
  cbn. constructor; [|apply IH; exact Hd].
  intros Hin. apply In_keys_filter in Hin. destruct Hin as [v' [Hin _]].
  apply Hk. apply (in_map fst) in Hin. exact Hin.
Qed.

Lemma get_filter {V : Type} (f : string * V -> bool) (d : Dict.t V) k v :
  NoDup (keys d) -> get k d = Some v -> f (k, v) = true ->
  get k (filter f d) = Some v.
Proof.
  intros Hnd Hget Hf. apply In_items_get.
  - apply NoDup_keys_filter. exact Hnd.
  - apply filter_In. split; [apply get_In_items; exact Hget | exact Hf].
Qed.

Lemma creditors_of_filter (b : Dict.t Qc) :
  NoDup (keys b) -> creditors_of b = filter is_creditor b.
Proof.
  intros H. unfold creditors_of, items. apply of_list_NoDup.
  apply (NoDup_keys_filter is_creditor). exact H.
Qed.

Lemma keys_debtor_entries (b : Dict.t Qc) :
  keys (map (fun kv => (fst kv, py_abs (snd kv))) (filter is_debtor b))
  = keys (filter is_debtor b).
Proof. unfold keys. rewrite map_map. reflexivity. Qed.

Lemma debtors_of_map (b : Dict.t Qc) :
  NoDup (keys b) ->
  debtors_of b
  = map (fun kv => (fst kv, py_abs (snd kv))) (filter is_debtor b).
Proof.
  intros H. unfold debtors_of, items. apply of_list_NoDup.
  fold (keys (map (fun kv : string * Qc => (fst kv, py_abs (snd kv)))
                (filter is_debtor b))).
  rewrite keys_debtor_entries. apply NoDup_keys_filter. exact H.
Qed.

Lemma abs_of_debt (v : Qc) : v < - eps -> py_abs v = - v.
Proof.
  intros H. unfold py_abs. apply Qcabs_neg. pose proof eps_pos. qc_lra.
Qed.

(** The plan computed for a balance vector, seen through its effect on each
    member: the balance [v] becomes [v + sent - received]. *)
Lemma settlements_of_spec (b : Dict.t Qc) :
  NoDup (keys b) ->
  exists S,
    settlements_of b = Ok S
    /\ Forall (fun x => In (Settlement.from x) (keys b) /\
                        In (Settlement.to x) (keys b)) S
    /\ (forall m v, get m b = Some v ->
          (0 <= v + sent m S - received m S /\
           v + sent m S - received m S <= v)
          \/ (v <= v + sent m S - received m S /\
              v + sent m S - received m S <= 0))
    /\ ((forall m v, get m b = Some v ->
           - eps <= v + sent m S - received m S)
        \/ (forall m v, get m b = Some v ->
              v + sent m S - received m S <= eps)).
Proof.
  intros Hnd. unfold settlements_of.
  rewrite (creditors_of_filter b Hnd), (debtors_of_map b Hnd). unfold items.
  set (C := filter is_creditor b).
  set (D := map (fun kv => (fst kv, py_abs (snd kv))) (filter is_debtor b)).
  assert (HndC : NoDup (keys C)) by (apply NoDup_keys_filter; exact Hnd).
  assert (HndD : NoDup (keys D)).
  { unfold D. rewrite keys_debtor_entries. apply NoDup_keys_filter.
    exact Hnd. }
  assert (HinC : forall k, In k (keys C) ->
            exists v, get k b = Some v /\ eps < v).
  { intros k Hk. apply In_keys_filter in Hk. destruct Hk as [v [Hin Hf]].
    exists v. split; [apply In_items_get; assumption|].
    apply Qcltb_lt. exact Hf. }
  assert (HinD : forall k, In k (keys D) ->
            exists v, get k b = Some v /\ v < - eps).
  { intros k Hk. unfold D in Hk. rewrite keys_debtor_entries in Hk.
    apply In_keys_filter in Hk. destruct Hk as [v [Hin Hf]].
    exists v. split; [apply In_items_get; assumption|].
    apply Qcltb_lt. exact Hf. }
  assert (HgetC : forall k v, get k b = Some v -> eps < v ->
            get k C = Some v).
  { intros k v Hget Hv. apply get_filter; auto. apply Qcltb_lt. exact Hv. }
  assert (HentryD : forall k v, get k b = Some v -> v < - eps ->
            In (k, - v) D).
  { intros k v Hget Hv. unfold D. apply in_map_iff. exists (k, v).
    cbn [fst snd]. rewrite (abs_of_debt v Hv). split; [reflexivity|].
    apply filter_In. split; [apply get_In_items; exact Hget|].
    apply Qcltb_lt. exact Hv. }
  destruct (settle_debtors_spec D C [] HndD HndC) as
    [S [Hrun [Hall [Hrem [Hcred Hend]]]]].
  { intros d debt Hin. unfold D in Hin. apply in_map_iff in Hin.
    destruct Hin as [[k v] [[= <- <-] _]]. cbn [snd]. apply Qcabs_nonneg. }
  { intros k v Hget.
    destruct (HinC k (get_Some_In _ _ _ Hget)) as [v' [Hv' Hlt]].
    assert (Hc : get k C = Some v') by (apply HgetC; assumption).
    rewrite Hget in Hc. injection Hc as <-.
    pose proof eps_pos. qc_lra. }
  cbn [app] in Hrun. exists S. split; [exact Hrun|].
  assert (Hamounts : Forall (fun x => 0 <= Settlement.amount x) S).
  { eapply Forall_impl; [|exact Hall]. cbv beta. tauto. }
  assert (Hnot_debtor : forall m v, get m b = Some v -> - eps <= v ->
            sent m S = 0).
  { intros m v Hget Hv. apply sent_none.
    eapply Forall_impl; [|exact Hall]. cbv beta. intros x [Hfrom _] E.
    rewrite E in Hfrom. destruct (HinD m Hfrom) as [v' [Hv' Hlt]].
    rewrite Hget in Hv'. injection Hv' as <-. qc_lra. }
  assert (Hnot_creditor : forall m v, get m b = Some v -> v <= eps ->
            received m S = 0).
  { intros m v Hget Hv. apply received_none.
    eapply Forall_impl; [|exact Hall]. cbv beta. intros x [_ [Hto _]] E.
    rewrite E in Hto. destruct (HinC m Hto) as [v' [Hv' Hlt]].
    rewrite Hget in Hv'. injection Hv' as <-. qc_lra. }
  assert (Hclass : forall m v, get m b = Some v ->
            (eps < v /\ sent m S = 0 /\ get m C = Some v)
            \/ (v < - eps /\ received m S = 0 /\ In (m, - v) D)
            \/ (- eps <= v /\ v <= eps /\ sent m S = 0 /\ received m S = 0)).
  { intros m v Hget. pose proof eps_pos.
    destruct (Qclt_le_dec eps v) as [Hhi|Hhi].
    - left. repeat split; auto.
      apply (Hnot_debtor m v Hget). qc_lra.
    - destruct (Qclt_le_dec v (- eps)) as [Hlo|Hlo].
      + right. left. repeat split; auto.
        apply (Hnot_creditor m v Hget). qc_lra.
      + right. right. repeat split; auto.
        * apply (Hnot_debtor m v Hget Hlo).
        * apply (Hnot_creditor m v Hget Hhi). }
  split.
  { eapply Forall_impl; [|exact Hall]. cbv beta. intros x [Hfrom [Hto _]].
    split.
    - destruct (HinD _ Hfrom) as [v [Hv _]]. eapply get_Some_In. exact Hv.
    - destruct (HinC _ Hto) as [v [Hv _]]. eapply get_Some_In. exact Hv. }
  split.
  { intros m v Hget. pose proof eps_pos.
    pose proof (received_nonneg m S Hamounts).
    pose proof (sent_nonneg m S Hamounts).
    destruct (Hclass m v Hget) as [[Hv [Hs Hc]]|[[Hv [Hr Hd]]|[Hv1 [Hv2 [Hs Hr]]]]].
    - left. pose proof (Hcred m v Hc). rewrite Hs. split; qc_lra.
    - right. pose proof (Hrem m (- v) Hd). rewrite Hr. split; qc_lra.
    - rewrite Hs, Hr. destruct (Qclt_le_dec v 0).
      + right. split; qc_lra.
      + left. split; qc_lra. }
  destruct Hend as [Hend|Hend].
  - left. intros m v Hget. pose proof eps_pos.
    destruct (Hclass m v Hget) as [[Hv [Hs Hc]]|[[Hv [Hr Hd]]|[Hv1 [Hv2 [Hs Hr]]]]].
    + pose proof (Hcred m v Hc). rewrite Hs. qc_lra.
    + pose proof (Hend m (- v) Hd). rewrite Hr. qc_lra.
    + rewrite Hs, Hr. qc_lra.
  - right. intros m v Hget. pose proof eps_pos.
    destruct (Hclass m v Hget) as [[Hv [Hs Hc]]|[[Hv [Hr Hd]]|[Hv1 [Hv2 [Hs Hr]]]]].
    + pose proof (Hend m v Hc). rewrite Hs. qc_lra.
    + pose proof (Hrem m (- v) Hd). rewrite Hr. qc_lra.
    + rewrite Hs, Hr. qc_lra.
Qed.
End Plan.

(** ** Balances after the settlements *)


Lemma NoDup_keys_calculate_balances (self : ExpenseSplitter)
  (group_filter : option string) :
  NoDup (Dict.keys (calculate_balances self group_filter)).
Proof. rewrite keys_calculate_balances. apply NoDup_initial_balances. Qed.

Lemma get_settle_inv (b : Dict.t Qc) (ss : list Settlement.t) (m : string)
  (v' : Qc) :
  Dict.get m (settle b ss) = Some v' ->
  exists v, Dict.get m b = Some v /\ v' = v + sent m ss - received m ss.
Proof.
  intros H. pose proof (DictFacts.get_Some_In _ _ _ H) as Hin.
  rewrite keys_settle in Hin.
  destruct (DictFacts.In_get_Some _ _ Hin) as [v Hv].
  exists v. split; [exact Hv|].
  rewrite (get_settle ss b m v Hv) in H. congruence.
Qed.



(** ** The scenarios of the specification, run on the model *)

(** Equality of computed structures, field by field down to the numbers. *)
Ltac same_numbers :=
  vm_compute;
  repeat first [ apply Qc_is_canon; reflexivity | progress f_equal ].

Example dinner_splits :
  compute_splits (Q2Qc 90) ["A"; "B"; "C"] "equal" None None
  = Ok [("A", Q2Qc 30); ("B", Q2Qc 30); ("C", Q2Qc 30)].
Proof. same_numbers. Qed.

Example dinner_balances :
  calculate_balances
    (mkSplitter
       [Expense.mk "id-1" "Dinner" (Q2Qc 90) ["A"] [("A", Q2Qc 90)]
          ["A"; "B"; "C"] [("A", Q2Qc 30); ("B", Q2Qc 30); ("C", Q2Qc 30)]
          "2024-01-01 00:00:00" "General"]
       [] ["A"; "B"; "C"]) None
  = [("A", Q2Qc 60); ("B", Q2Qc (-30)); ("C", Q2Qc (-30))].
Proof. same_numbers. Qed.

Example dinner_settlements :
  get_settlements
    (mkSplitter
       [Expense.mk "id-1" "Dinner" (Q2Qc 90) ["A"] [("A", Q2Qc 90)]
          ["A"; "B"; "C"] [("A", Q2Qc 30); ("B", Q2Qc 30); ("C", Q2Qc 30)]
          "2024-01-01 00:00:00" "General"]
       [] ["A"; "B"; "C"]) None
  = Ok [Settlement.mk "B" "A" (Q2Qc 30); Settlement.mk "C" "A" (Q2Qc 30)].
Proof. same_numbers. Qed.

Example ratio_two_three :
  compute_splits (Q2Qc 100) ["A"; "B"] "ratio" None
    (Some [("A", Q2Qc 2); ("B", Q2Qc 3)])
  = Ok [("A", Q2Qc 40); ("B", Q2Qc 60)].
Proof. same_numbers. Qed.

Example delete_unknown_id :
  let self :=
    mkSplitter
      [Expense.mk "id-1" "Dinner" (Q2Qc 90) ["A"] [("A", Q2Qc 90)]
         ["A"; "B"; "C"] [("A", Q2Qc 30); ("B", Q2Qc 30); ("C", Q2Qc 30)]
         "2024-01-01 00:00:00" "General"]
      [] ["A"; "B"; "C"] in
  delete_expense self "id-2" = self.
Proof. reflexivity. Qed.

(** ** Claims about [add_expense] *)

(** C10.  With split type "equal" and a non-empty [split_among] the division
    [amount / len(split_among)] is defined and [add_expense] returns the new
    id after appending the expense; with an empty [split_among] the call
    raises [ZeroDivisionError]. *)
Theorem add_expense_equal_division
  (self : ExpenseSplitter) (uuid4 now description : string) (amount : Qc)
  (paid_by : list string) (paid_amounts : Dict.t Qc)
  (m : string) (rest : list string)
  (custom_splits ratio_splits : option (Dict.t Qc)) (group : string) :
  (exists splits,
      add_expense self uuid4 now description amount paid_by paid_amounts
        (m :: rest) "equal" custom_splits ratio_splits group
      = Ok (with_expenses self
              (expenses self ++
               [Expense.mk uuid4 description amount paid_by paid_amounts
                  (m :: rest) splits now group]),
            uuid4))
  /\ add_expense self uuid4 now description amount paid_by paid_amounts
       [] "equal" custom_splits ratio_splits group
     = Raise ZeroDivisionError.
Proof.
  split.
  - unfold add_expense, compute_splits. cbn [String.eqb Ascii.eqb Bool.eqb].
    rewrite equal_splits_nonempty. cbn [bind]. eexists. reflexivity.
  - reflexivity.
Qed.

(** C3, as stated, fails: a custom split of 10 + 20 for an expense of 100 is
    accepted and stored. *)
Lemma custom_split_not_rejected :
  let self := mkSplitter [] [] ["A"; "B"] in
  let custom_splits := [("A", Q2Qc 10); ("B", Q2Qc 20)] in
  let amount := Q2Qc 100 in
  eps < py_abs (py_sum (Dict.values custom_splits) - amount) /\
  exists self' expense_id,
    add_expense self "id-1" "2024-01-01 00:00:00" "Dinner" amount ["A"]
      [("A", amount)] ["A"; "B"] "custom" (Some custom_splits) None "General"
    = Ok (self', expense_id) /\
    map Expense.splits (expenses self') = [custom_splits] /\
    expenses self' <> expenses self.
Proof.
  cbv zeta. split.
  - apply Qcltb_lt. vm_compute. reflexivity.
  - eexists. eexists. split; [reflexivity|]. split; [reflexivity|].
    simpl. discriminate.
Qed.

(** C3, amended.  [add_expense] does not validate a custom split: for any
    non-empty [custom_splits], whatever its sum, it returns the new id and
    appends an expense whose [splits] is [custom_splits] itself.  The check
    against the amount is made by the caller: the page enables the button
    only when [can_add_expense] holds, which for a custom split requires the
    sum to be within 0.01 of the amount. *)
Theorem add_expense_custom_unvalidated
  (self : ExpenseSplitter) (uuid4 now description : string) (amount : Qc)
  (paid_by : list string) (paid_amounts : Dict.t Qc)
  (split_among : list string) (kv : string * Qc) (d : Dict.t Qc)
  (ratio_splits : option (Dict.t Qc)) (group : string) :
  add_expense self uuid4 now description amount paid_by paid_amounts
    split_among "custom" (Some (kv :: d)) ratio_splits group
  = Ok (with_expenses self
          (expenses self ++
           [Expense.mk uuid4 description amount paid_by paid_amounts
              split_among (kv :: d) now group]),
        uuid4)
  /\ (forall rs,
        can_add_expense description amount paid_by paid_amounts split_among
          "Custom" (kv :: d) rs = true ->
        py_abs (py_sum (Dict.values (kv :: d)) - amount) < eps).
Proof.
  split; [reflexivity|].
  intros rs H. unfold can_add_expense in H.
  cbn [String.eqb Ascii.eqb Bool.eqb orb andb] in H.
  repeat (apply andb_prop in H; destruct H as [H ?]).
  match goal with
  | H1 : (Qcltb (py_abs _) eps || _)%bool = true |- _ =>
      apply orb_prop in H1; destruct H1 as [H1|H1];
      [apply Qcltb_lt; exact H1 | discriminate H1]
  end.
Qed.

Lemma add_expense_custom_unvalidated_witness :
  py_abs (py_sum (Dict.values [("A", Q2Qc 40); ("B", Q2Qc 60)]) - Q2Qc 100)
  < eps.
Proof.
  refine (proj2 (add_expense_custom_unvalidated (mkSplitter [] [] ["A"; "B"])
                   "id-1" "2024-01-01 00:00:00" "Dinner" (Q2Qc 100) ["A"]
                   [("A", Q2Qc 100)] ["A"; "B"] ("A", Q2Qc 40)
                   [("B", Q2Qc 60)] None "General") [] _).
  vm_compute. reflexivity.
Defined.

(** C9.  When the split type is not "equal", not "custom" with a non-empty
    [custom_splits] and not "ratio" with a non-empty [ratio_splits],
    [add_expense] does not fail: it appends an expense whose splits map every
    member of [split_among] to 0, so the stored splits sum to 0.  The same
    holds for the earlier copy, which has no ratio policy at all. *)
Theorem add_expense_fallback_zero
  (self : ExpenseSplitter) (uuid4 now description : string) (amount : Qc)
  (paid_by : list string) (paid_amounts : Dict.t Qc)
  (split_among : list string) (split_type : string)
  (custom_splits ratio_splits : option (Dict.t Qc)) (group : string) :
  split_type <> "equal" ->
  ~ (split_type = "custom" /\ Dict.truthy custom_splits = true) ->
  ~ (split_type = "ratio" /\ Dict.truthy ratio_splits = true) ->
  let splits := zero_splits split_among in
  let stored :=
    with_expenses self
      (expenses self ++
       [Expense.mk uuid4 description amount paid_by paid_amounts
          split_among splits now group]) in
  add_expense self uuid4 now description amount paid_by paid_amounts
    split_among split_type custom_splits ratio_splits group
  = Ok (stored, uuid4)
  /\ SplitwiseClone.add_expense self uuid4 now description amount paid_by
       paid_amounts split_among split_type custom_splits group
     = Ok (stored, uuid4)
  /\ (forall member, In member split_among ->
        Dict.get member splits = Some 0)
  /\ (forall member share, In (member, share) splits ->
        In member split_among /\ share = 0)
  /\ py_sum (Dict.values splits) = 0.
Proof.
  intros Hequal Hcustom Hratio splits stored.
  assert (E1 : (split_type =? "equal") = false)
    by (apply String.eqb_neq; exact Hequal).
  assert (E2 : ((split_type =? "custom") && Dict.truthy custom_splits)%bool
               = false).
  { apply not_true_is_false. intros H. apply andb_prop in H.
    destruct H as [H1 H2]. apply String.eqb_eq in H1. tauto. }
  assert (E3 : ((split_type =? "ratio") && Dict.truthy ratio_splits)%bool
               = false).
  { apply not_true_is_false. intros H. apply andb_prop in H.
    destruct H as [H1 H2]. apply String.eqb_eq in H1. tauto. }
  repeat split.
  - unfold add_expense, compute_splits. rewrite E1, E2, E3. reflexivity.
  - unfold SplitwiseClone.add_expense, SplitwiseClone.compute_splits.
    rewrite E1, E2. reflexivity.
  - intros member Hin. apply const_get. exact Hin.
  - apply const_items in H. tauto.
  - apply const_items in H. tauto.
  - apply py_sum_all_zero. intros x Hx. apply const_values in Hx. exact Hx.
Qed.

Lemma add_expense_fallback_zero_witness :
  add_expense (mkSplitter [] [] ["A"; "B"]) "id-1" "2024-01-01 00:00:00"
    "Dinner" (Q2Qc 100) ["A"] [("A", Q2Qc 100)] ["A"; "B"] "percentage"
    None None "General"
  = Ok (mkSplitter
          [Expense.mk "id-1" "Dinner" (Q2Qc 100) ["A"] [("A", Q2Qc 100)]
             ["A"; "B"] (zero_splits ["A"; "B"]) "2024-01-01 00:00:00"
             "General"] [] ["A"; "B"],
        "id-1").
Proof.
  refine (proj1 (add_expense_fallback_zero (mkSplitter [] [] ["A"; "B"])
                   "id-1" "2024-01-01 00:00:00" "Dinner" (Q2Qc 100) ["A"]
                   [("A", Q2Qc 100)] ["A"; "B"] "percentage" None None
                   "General" _ _ _)).
  - discriminate.
  - intros [H _]. discriminate H.
  - intros [H _]. discriminate H.
Defined.




(** ** Balances over any number system *)

Section NumericFacts.
Import Dict DictFacts.
Variable N : Numeric.arith.
#[local] Abbreviation num := (Numeric.num N).

Lemma numeric_keys_credit (b : Dict.t num) kv :
  keys (Numeric.credit b kv) = keys b.
Proof.
  unfold Numeric.credit. destruct (get (fst kv) b) eqn:E; [|reflexivity].
  apply keys_set_present. eapply get_Some_In. exact E.
Qed.

Lemma numeric_keys_debit (b : Dict.t num) kv :
  keys (Numeric.debit b kv) = keys b.
Proof.
  unfold Numeric.debit. destruct (get (fst kv) b) eqn:E; [|reflexivity].
  apply keys_set_present. eapply get_Some_In. exact E.
Qed.

Lemma numeric_keys_fold_credit d (b : Dict.t num) :
  keys (fold_left Numeric.credit d b) = keys b.
Proof.
  revert b. induction d as [|kv d IH]; intros b; cbn [fold_left].
  - reflexivity.
  - rewrite IH. apply numeric_keys_credit.
Qed.

Lemma numeric_keys_fold_debit d (b : Dict.t num) :
  keys (fold_left Numeric.debit d b) = keys b.
Proof.
  revert b. induction d as [|kv d IH]; intros b; cbn [fold_left].
  - reflexivity.
  - rewrite IH. apply numeric_keys_debit.
Qed.

Lemma numeric_keys_process (b : Dict.t num) e :
  keys (Numeric.process_expense b e) = keys b.
Proof.
  unfold Numeric.process_expense.
  rewrite numeric_keys_fold_debit. apply numeric_keys_fold_credit.
Qed.

Lemma numeric_keys_fold_process es (b : Dict.t num) :
  keys (fold_left Numeric.process_expense es b) = keys b.
Proof.
  revert b. induction es as [|e es IH]; intros b; cbn [fold_left].
  - reflexivity.
  - rewrite IH. apply numeric_keys_process.
Qed.

Lemma numeric_get_credit (b : Dict.t num) k x m v :
  get m b = Some v ->
  get m (Numeric.credit b (k, x))
  = Some (if k =? m then Numeric.add N v x else v).
Proof.
  intros Hm. unfold Numeric.credit. cbn [fst snd].
  destruct (String.eqb_spec k m) as [->|Hne].
  - rewrite Hm. apply get_set_same.
  - destruct (get k b); [|exact Hm].
    rewrite get_set_other by assumption. exact Hm.
Qed.

Lemma numeric_get_debit (b : Dict.t num) k x m v :
  get m b = Some v ->
  get m (Numeric.debit b (k, x))
  = Some (if k =? m then Numeric.sub N v x else v).
Proof.
  intros Hm. unfold Numeric.debit. cbn [fst snd].
  destruct (String.eqb_spec k m) as [->|Hne].
  - rewrite Hm. apply get_set_same.
  - destruct (get k b); [|exact Hm].
    rewrite get_set_other by assumption. exact Hm.
Qed.

Lemma numeric_get_fold_credit d (b : Dict.t num) m v :
  get m b = Some v ->
  get m (fold_left Numeric.credit d b)
  = Some (fold_left
            (fun v kv => if fst kv =? m then Numeric.add N v (snd kv) else v)
            d v).
Proof.
  revert b v. induction d as [|[k x] d IH]; intros b v Hm; cbn [fold_left].
  - exact Hm.
  - apply IH. apply numeric_get_credit. exact Hm.
Qed.

Lemma numeric_get_fold_debit d (b : Dict.t num) m v :
  get m b = Some v ->
  get m (fold_left Numeric.debit d b)
  = Some (fold_left
            (fun v kv => if fst kv =? m then Numeric.sub N v (snd kv) else v)
            d v).
Proof.
  revert b v. induction d as [|[k x] d IH]; intros b v Hm; cbn [fold_left].
  - exact Hm.
  - apply IH. apply numeric_get_debit. exact Hm.
Qed.

Lemma numeric_get_process (b : Dict.t num) e m v :
  get m b = Some v ->
  get m (Numeric.process_expense b e) = Some (Numeric.member_step m v e).
Proof.
  intros Hm. unfold Numeric.process_expense, Numeric.member_step.
  apply numeric_get_fold_debit. apply numeric_get_fold_credit. exact Hm.
Qed.

Lemma numeric_get_fold_process es (b : Dict.t num) m v :
  get m b = Some v ->
  get m (fold_left Numeric.process_expense es b)
  = Some (fold_left (Numeric.member_step m) es v).
Proof.
  revert b v. induction es as [|e es IH]; intros b v Hm; cbn [fold_left].
  - exact Hm.
  - apply IH. apply numeric_get_process. exact Hm.
Qed.

(** *** The initial mapping *)

Lemma numeric_initial_keys ms (d : Dict.t num) k :
  In k (keys (fold_left (fun b m => set m (Numeric.zero N) b) ms d))
  <-> In k (keys d) \/ In k ms.
Proof.
  revert d. induction ms as [|m ms IH]; intros d; cbn [fold_left].
  - simpl. tauto.
  - rewrite IH, In_keys_set. simpl. intuition.
Qed.

Lemma numeric_initial_NoDup ms (d : Dict.t num) :
  NoDup (keys d) ->
  NoDup (keys (fold_left (fun b m => set m (Numeric.zero N) b) ms d)).
Proof.
  revert d. induction ms as [|m ms IH]; intros d H; cbn [fold_left]; auto.
  apply IH. apply NoDup_keys_set. exact H.
Qed.

Lemma numeric_initial_values ms (d : Dict.t num) k v :
  (forall k' v', get k' d = Some v' -> v' = Numeric.zero N) ->
  get k (fold_left (fun b m => set m (Numeric.zero N) b) ms d) = Some v ->
  v = Numeric.zero N.
Proof.
  revert d. induction ms as [|m ms IH]; intros d Hd; cbn [fold_left].
  - apply Hd.
  - apply IH. intros k' v'. destruct (string_dec m k') as [->|Hne].
    + rewrite get_set_same. congruence.
    + rewrite get_set_other by assumption. apply Hd.
Qed.

Lemma numeric_get_initial ms m :
  In m ms -> get m (Numeric.initial_balances N ms) = Some (Numeric.zero N).
Proof.
  intros Hin. unfold Numeric.initial_balances.
  assert (Hk : In m (keys (fold_left
                             (fun b m => set m (Numeric.zero N) b) ms
                             (@empty num)))).
  { apply numeric_initial_keys. right. exact Hin. }
  destruct (In_get_Some _ _ Hk) as [v Hv]. rewrite Hv. f_equal.
  eapply numeric_initial_values; [|exact Hv]. intros k' v'. discriminate.
Qed.

Lemma numeric_keys_calculate ms (es : list (Numeric.expense N)) gf k :
  In k (keys (Numeric.calculate_balances ms es gf)) <-> In k ms.
Proof.
  unfold Numeric.calculate_balances, Numeric.initial_balances.
  rewrite numeric_keys_fold_process, numeric_initial_keys. simpl. tauto.
Qed.

Lemma numeric_keys_calculate_initial ms (es : list (Numeric.expense N)) gf :
  keys (Numeric.calculate_balances ms es gf)
  = keys (Numeric.initial_balances N ms).
Proof. apply numeric_keys_fold_process. Qed.

Lemma numeric_NoDup_calculate ms (es : list (Numeric.expense N)) gf :
  NoDup (keys (Numeric.calculate_balances ms es gf)).
Proof.
  unfold Numeric.calculate_balances, Numeric.initial_balances.
  rewrite numeric_keys_fold_process. apply numeric_initial_NoDup.
  constructor.
Qed.

(** *** Scope and the expenses that name a member *)

Lemma numeric_scope (es : list (Numeric.expense N)) gf :
  Numeric.expenses_to_process es gf = filter (Numeric.in_scope gf) es.
Proof.
  unfold Numeric.expenses_to_process, Numeric.in_scope.
  destruct gf as [g|].
  - destruct (g =? ""), (g =? "All Groups"); cbn [negb andb orb];
      try reflexivity; symmetry; apply filter_all_true; reflexivity.
  - symmetry. apply filter_all_true. reflexivity.
Qed.

Lemma numeric_get_calculate ms (es : list (Numeric.expense N)) gf m :
  In m ms ->
  get m (Numeric.calculate_balances ms es gf)
  = Some (Numeric.running_balance m (filter (Numeric.in_scope gf) es)).
Proof.
  intros Hin. unfold Numeric.calculate_balances, Numeric.running_balance.
  rewrite numeric_scope. apply numeric_get_fold_process.
  apply numeric_get_initial. exact Hin.
Qed.

Lemma fold_skips_other_keys (f : num -> num -> num) (d : Dict.t num) m v :
  ~ In m (keys d) ->
  fold_left (fun v kv => if fst kv =? m then f v (snd kv) else v) d v = v.
Proof.
  revert v. induction d as [|[k x] d IH]; intros v H; cbn [fold_left].
  - reflexivity.
  - simpl in H. cbn [fst snd].
    destruct (String.eqb_spec k m) as [->|Hne]; [tauto|].
    apply IH. tauto.
Qed.

Lemma numeric_mentions_false m (e : Numeric.expense N) :
  Numeric.mentions m e = false <->
  ~ In m (keys (Numeric.paid_amounts e)) /\
  ~ In m (keys (Numeric.splits e)).
Proof.
  unfold Numeric.mentions, mem. rewrite orb_false_iff.
  rewrite <- !get_None_iff.
  destruct (get m (Numeric.paid_amounts e)), (get m (Numeric.splits e));
    split; intros [H1 H2]; split; congruence.
Qed.

Lemma numeric_step_not_mentioned m v (e : Numeric.expense N) :
  Numeric.mentions m e = false -> Numeric.member_step m v e = v.
Proof.
  intros H. apply numeric_mentions_false in H. destruct H as [Hp Hs].
  unfold Numeric.member_step.
  rewrite (fold_skips_other_keys (Numeric.add N)) by exact Hp.
  apply (fold_skips_other_keys (Numeric.sub N)). exact Hs.
Qed.

(** A member's running balance only sees the expenses that name the
    member, in their order. *)
Lemma numeric_running_mentions m (es : list (Numeric.expense N)) v :
  fold_left (Numeric.member_step m) es v
  = fold_left (Numeric.member_step m) (filter (Numeric.mentions m) es) v.
Proof.
  revert v. induction es as [|e es IH]; intros v; cbn [fold_left filter].
  - reflexivity.
  - destruct (Numeric.mentions m e) eqn:E; cbn [fold_left].
    + apply IH.
    + rewrite numeric_step_not_mentioned by exact E. apply IH.
Qed.

Lemma filter_comm {A : Type} (f g : A -> bool) (l : list A) :
  filter f (filter g l) = filter g (filter f l).
Proof.
  induction l as [|x l IH]; cbn [filter]; [reflexivity|].
  destruct (f x) eqn:Ef, (g x) eqn:Eg; cbn [filter];
    rewrite ?Ef, ?Eg, IH; reflexivity.
Qed.
End NumericFacts.

Lemma fold_process_exact (es : list Expense.t) (b : Dict.t Qc) :
  fold_left process_expense es b
  = fold_left (Numeric.process_expense (N := Numeric.exact))
      (map Numeric.of_expense es) b.
Proof.
  revert b. induction es as [|e es IH]; intros b; cbn [map fold_left].
  - reflexivity.
  - rewrite IH. reflexivity.
Qed.

Lemma scope_exact (self : ExpenseSplitter) (group_filter : option string) :
  Numeric.expenses_to_process (map Numeric.of_expense (expenses self))
    group_filter
  = map Numeric.of_expense (expenses_to_process self group_filter).
Proof.
  unfold Numeric.expenses_to_process, expenses_to_process.
  destruct group_filter as [g|]; [|reflexivity].
  destruct (negb (g =? "") && negb (g =? "All Groups"))%bool; [|reflexivity].
  induction (expenses self) as [|e es IH]; cbn [map filter]; [reflexivity|].
  cbn [Numeric.group Numeric.of_expense].
  destruct (Expense.group e =? g); cbn [map]; rewrite IH; reflexivity.
Qed.

(** The embedding over [Qc] is the one over any number system, taken at the
    exact rationals. *)
Lemma calculate_balances_exact (self : ExpenseSplitter)
  (group_filter : option string) :
  calculate_balances self group_filter
  = Numeric.calculate_balances (N := Numeric.exact) (members self)
      (map Numeric.of_expense (expenses self)) group_filter.
Proof.
  unfold calculate_balances, Numeric.calculate_balances.
  rewrite scope_exact, fold_process_exact. reflexivity.
Qed.

(** ** Claims about [calculate_balances] *)

(** C4, as stated, fails on Python's floats: the code keeps one running
    balance per member, and that is not the sum of the payments minus the
    sum of the shares when additions round.  With A paying 90 split
    30/30/30, B paying 10.1 split 5.05/5.05 and A paying 0.3 split
    0.1/0.1/0.1, B ends at -25.05, while B's payments minus B's shares is
    -25.049999999999997. *)
Lemma balance_is_not_paid_minus_owed :
  let es : list (Numeric.expense Numeric.binary64) :=
    [Numeric.float_expense "General" [("A", 90%float)]
       [("A", 30%float); ("B", 30%float); ("C", 30%float)];
     Numeric.float_expense "General" [("B", 10.1%float)]
       [("A", 5.05%float); ("B", 5.05%float)];
     Numeric.float_expense "General" [("A", 0.3%float)]
       [("A", 0.1%float); ("B", 0.1%float); ("C", 0.1%float)]] in
  Dict.get "B" (Numeric.calculate_balances ["A"; "B"; "C"] es None)
  = Some (-25.05)%float
  /\ Numeric.paid_minus_owed "B" es = (-25.049999999999997)%float
  /\ Dict.get "B" (Numeric.calculate_balances ["A"; "B"; "C"] es None)
     <> Some (Numeric.paid_minus_owed "B" es).
Proof.
  cbv zeta. split; [vm_compute; reflexivity|].
  split; [vm_compute; reflexivity|].
  intros H.
  apply (f_equal (fun o => match o with
                           | Some x => PrimFloat.eqb x (-25.05)%float
                           | None => false
                           end)) in H.
  vm_compute in H. discriminate H.
Qed.

(** C4, amended.  Whatever the additions round to, [calculate_balances]
    returns a mapping whose keys are exactly the members of the registry,
    each once.  A member's value is that member's running balance: starting
    from 0.0 and going through the expenses in scope in their stored order,
    the member's [paid_amounts] entry is added and then the member's
    [splits] entry is subtracted.  In scope are all expenses when the filter
    is absent, empty or "All Groups", and otherwise the expenses filed under
    the filter's group.  A member that appears in no expense in scope is at
    0.0. *)
Theorem calculate_balances_spec (N : Numeric.arith) (members : list string)
  (expenses : list (Numeric.expense N)) (group_filter : option string) :
  let balances := Numeric.calculate_balances members expenses group_filter in
  let scope := filter (Numeric.in_scope group_filter) expenses in
  NoDup (Dict.keys balances)
  /\ (forall member, In member (Dict.keys balances) <-> In member members)
  /\ (forall member, In member members ->
        Dict.get member balances
        = Some (Numeric.running_balance member scope))
  /\ (forall member, In member members ->
        (forall e, In e scope ->
           ~ In member (Dict.keys (Numeric.paid_amounts e)) /\
           ~ In member (Dict.keys (Numeric.splits e))) ->
        Dict.get member balances = Some (Numeric.zero N)).
Proof.
  intros balances scope. subst balances scope.
  split; [apply numeric_NoDup_calculate|].
  split; [intros member; apply numeric_keys_calculate|].
  split; [intros member Hin; apply numeric_get_calculate; exact Hin|].
  intros member Hin Hnone. rewrite numeric_get_calculate by exact Hin.
  f_equal. unfold Numeric.running_balance.
  rewrite numeric_running_mentions.
  rewrite (filter_all_false (Numeric.mentions member)); [reflexivity|].
  intros e He. apply numeric_mentions_false. apply Hnone. exact He.
Qed.

Lemma calculate_balances_spec_witness :
  let es : list (Numeric.expense Numeric.binary64) :=
    [Numeric.float_expense "General" [("A", 90%float)]
       [("A", 45%float); ("B", 45%float)]] in
  Dict.get "C" (Numeric.calculate_balances ["A"; "B"; "C"] es None)
  = Some 0%float
  /\ Dict.get "B" (Numeric.calculate_balances ["A"; "B"; "C"] es None)
     = Some (Numeric.running_balance "B"
               (filter (Numeric.in_scope None) es)).
Proof.
  intros es.
  destruct (calculate_balances_spec Numeric.binary64 ["A"; "B"; "C"] es None)
    as [_ [_ [Hval Hzero]]].
  split.
  - apply Hzero.
    + simpl. tauto.
    + intros e [<-|[]]. simpl. split; intuition discriminate.
  - apply Hval. simpl. tauto.
Defined.

(** In exact arithmetic two expense lists that are permutations of each
    other give the same balances. *)
Lemma exact_balances_permutation
  (es es' : list Expense.t) (gs : Dict.t (list string)) (ms : list string)
  (group_filter : option string) :
  Permutation es es' ->
  calculate_balances (mkSplitter es gs ms) group_filter
  = calculate_balances (mkSplitter es' gs ms) group_filter.
Proof.
  intros Hperm. apply DictFacts.ext.
  - rewrite keys_calculate_balances. apply NoDup_initial_balances.
  - rewrite !keys_calculate_balances. reflexivity.
  - intros k Hk. rewrite keys_calculate_balances in Hk.
    apply (proj1 (keys_initial_balances _ _)) in Hk. cbn [members] in Hk.
    rewrite !get_calculate_balances by exact Hk.
    pose proof (Permutation_expenses_to_process es es' gs gs ms ms
                  group_filter Hperm) as Hscope.
    unfold total_paid, total_owed.
    rewrite (py_sum_perm _ _ (Permutation_map
               (fun e => entries_of k (Expense.paid_amounts e)) Hscope)).
    rewrite (py_sum_perm _ _ (Permutation_map
               (fun e => entries_of k (Expense.splits e)) Hscope)).
    reflexivity.
Qed.

(** C6, as stated, fails on Python's floats, whose addition is not
    associative.  A pays 0.1, 0.2 and 0.3 for B in three expenses: in that
    order A ends at 0.6000000000000001, in the reverse order at 0.6. *)
Lemma balances_depend_on_order :
  let e (x : PrimFloat.float) : Numeric.expense Numeric.binary64 :=
    Numeric.float_expense "General" [("A", x)] [("B", x)] in
  let es := [e 0.1%float; e 0.2%float; e 0.3%float] in
  Permutation es (rev es)
  /\ Dict.get "A" (Numeric.calculate_balances ["A"; "B"] es None)
     = Some 0.6000000000000001%float
  /\ Dict.get "A" (Numeric.calculate_balances ["A"; "B"] (rev es) None)
     = Some 0.6%float
  /\ Numeric.calculate_balances ["A"; "B"] es None
     <> Numeric.calculate_balances ["A"; "B"] (rev es) None.
Proof.
  cbv zeta. split; [apply Permutation_rev|].
  split; [vm_compute; reflexivity|].
  split; [vm_compute; reflexivity|].
  intros H.
  apply (f_equal (fun d => match Dict.get "A" d with
                           | Some x => PrimFloat.eqb x 0.6%float
                           | None => false
                           end)) in H.
  vm_compute in H. discriminate H.
Qed.

(** C6, amended.  Whatever the additions round to, the balances depend on
    the order of the expenses only through the order in which each member's
    own expenses come: two expense lists in which, for every member, the
    expenses naming that member are the same and in the same order give the
    same balance mapping, with or without a group filter.  Exchanging two
    neighbouring expenses that have no member in common is such a
    reordering. *)
Theorem calculate_balances_reordering (N : Numeric.arith)
  (members : list string) (es es' : list (Numeric.expense N))
  (group_filter : option string) :
  (forall member, In member members ->
     filter (Numeric.mentions member) es
     = filter (Numeric.mentions member) es') ->
  Numeric.calculate_balances members es group_filter
  = Numeric.calculate_balances members es' group_filter.
Proof.
  intros Hsame. apply DictFacts.ext.
  - apply numeric_NoDup_calculate.
  - rewrite !numeric_keys_calculate_initial. reflexivity.
  - intros k Hk. apply numeric_keys_calculate in Hk.
    rewrite !numeric_get_calculate by exact Hk.
    unfold Numeric.running_balance. f_equal.
    rewrite (numeric_running_mentions N k (filter _ es)).
    rewrite (numeric_running_mentions N k (filter _ es')).
    rewrite (filter_comm (Numeric.mentions k) _ es).
    rewrite (filter_comm (Numeric.mentions k) _ es').
    rewrite (Hsame k Hk). reflexivity.
Qed.

Lemma calculate_balances_reordering_witness :
  let e1 : Numeric.expense Numeric.binary64 :=
    Numeric.float_expense "General" [("A", 0.1%float)] [("B", 0.1%float)] in
  let e2 : Numeric.expense Numeric.binary64 :=
    Numeric.float_expense "Trip" [("C", 0.2%float)] [("D", 0.2%float)] in
  Numeric.calculate_balances ["A"; "B"; "C"; "D"] [e1; e2] None
  = Numeric.calculate_balances ["A"; "B"; "C"; "D"] [e2; e1] None.
Proof.
  intros e1 e2.
  apply (calculate_balances_reordering Numeric.binary64
           ["A"; "B"; "C"; "D"] [e1; e2] [e2; e1] None).
  intros member [<-|[<-|[<-|[<-|[]]]]]; reflexivity.
Defined.





(** ** Export and import *)

(** C8.  Importing the document produced by [export_data] succeeds, whatever
    the state of the importing splitter, and leaves the same expense list,
    the same groups mapping and the same set of member names. *)
Theorem import_export_roundtrip (self other : ExpenseSplitter) (now : string) :
  snd (import_data other (export_data self now)) = true
  /\ expenses (fst (import_data other (export_data self now)))
     = expenses self
  /\ groups (fst (import_data other (export_data self now))) = groups self
  /\ (forall name,
        In name (members (fst (import_data other (export_data self now))))
        <-> In name (members self)).
Proof.
  unfold import_data, export_data, get_default, Dict.mem.
  cbn [Dict.get String.eqb Ascii.eqb Bool.eqb andb].
  rewrite expenses_of_json_of_expenses, groups_of_json_of_groups,
    names_of_json_of_names.
  cbn [fst snd expenses groups members].
  repeat split; try reflexivity; apply In_py_set.
Qed.

(** ** The expense store *)




(** ** The settlement planner *)




(** * Further properties of the code *)

(** ** The ratio policy *)

Lemma get_of_list_determined (f : string -> Qc) (kvs : list (string * Qc))
  (k : string) :
  (forall k' v, In (k', v) kvs -> v = f k') ->
  Dict.get k (Dict.of_list kvs)
  = if in_dec string_dec k (map fst kvs) then Some (f k) else None.
Proof.
  intros Hf. destruct (in_dec string_dec k (map fst kvs)) as [Hin|Hn].
  - apply DictFacts.In_keys_of_list in Hin.
    destruct (DictFacts.In_get_Some _ _ Hin) as [v Hv]. rewrite Hv.
    f_equal. apply DictFacts.get_In_items in Hv.
    apply In_fold_set_inv in Hv. destruct Hv as [[]|Hv]. exact (Hf k v Hv).
  - apply DictFacts.get_None_iff. intros Hin. apply Hn.
    apply DictFacts.In_keys_of_list. exact Hin.
Qed.

Lemma In_weighted amount total r split_among m share :
  In (m, share) (weighted amount total r split_among) <->
  In m split_among /\
  exists w, Dict.get m r = Some w /\ share = w / total * amount.
Proof.
  unfold weighted. rewrite in_flat_map. split.
  - intros [x [Hx Hin]]. destruct (Dict.get x r) as [w|] eqn:E.
    + destruct Hin as [[= <- <-]|[]]. split; [exact Hx|]. exists w. auto.
    + destruct Hin.
  - intros [Hm [w [Hw ->]]]. exists m. split; [exact Hm|].
    rewrite Hw. left. reflexivity.
Qed.

(** X1.  With split type "ratio", a non-empty [ratio_splits] and a non-zero
    total weight, [add_expense] appends an expense in which every name of
    [split_among] that has a weight owes [weight / total * amount], and in
    which no other name appears: names without a weight are left out, and so
    are weights of names outside [split_among]. *)
Theorem add_expense_ratio_shares
  (self : ExpenseSplitter) (uuid4 now description : string) (amount : Qc)
  (paid_by : list string) (paid_amounts : Dict.t Qc)
  (split_among : list string) (custom_splits : option (Dict.t Qc))
  (kv : string * Qc) (r : Dict.t Qc) (group : string) :
  let weights := kv :: r in
  let total := py_sum (Dict.values weights) in
  total <> 0 ->
  exists splits,
    add_expense self uuid4 now description amount paid_by paid_amounts
      split_among "ratio" custom_splits (Some weights) group
    = Ok (with_expenses self
            (expenses self ++
             [Expense.mk uuid4 description amount paid_by paid_amounts
                split_among splits now group]),
          uuid4)
    /\ (forall m w, In m split_among -> Dict.get m weights = Some w ->
          Dict.get m splits = Some (w / total * amount))
    /\ (forall m, Dict.get m weights = None -> Dict.get m splits = None)
    /\ (forall m, ~ In m split_among -> Dict.get m splits = None).
Proof.
  intros weights total Hnz.
  exists (Dict.of_list (weighted amount total weights split_among)).
  assert (Hdet : forall k' v,
            In (k', v) (weighted amount total weights split_among) ->
            v = match Dict.get k' weights with
                | Some w => w / total * amount
                | None => 0
                end).
  { intros k' v H. apply In_weighted in H.
    destruct H as [_ [w [Hw ->]]]. rewrite Hw. reflexivity. }
  assert (Hkeys : forall m,
            In m (map fst (weighted amount total weights split_among)) <->
            In m split_among /\ exists w, Dict.get m weights = Some w).
  { intros m. rewrite in_map_iff. split.
    - intros [[m' share] [E H]]. cbn in E. subst m'.
      apply In_weighted in H. destruct H as [Hm [w [Hw _]]]. eauto.
    - intros [Hm [w Hw]]. exists (m, w / total * amount). split; auto.
      apply In_weighted. eauto. }
  split; [|split; [|split]].
  - unfold add_expense, compute_splits, ratio_split.
    cbn [String.eqb Ascii.eqb Bool.eqb andb Dict.truthy Dict.unwrap].
    fold weights. fold total.
    rewrite (ratio_entries_weighted amount total weights split_among Hnz).
    reflexivity.
  - intros m w Hm Hw. rewrite (get_of_list_determined _ _ m Hdet).
    destruct (in_dec string_dec m _) as [_|Hn].
    + rewrite Hw. reflexivity.
    + exfalso. apply Hn. apply Hkeys. eauto.
  - intros m Hw. rewrite (get_of_list_determined _ _ m Hdet).
    destruct (in_dec string_dec m _) as [Hin|_]; [|reflexivity].
    apply Hkeys in Hin. destruct Hin as [_ [w Hw']]. congruence.
  - intros m Hm. rewrite (get_of_list_determined _ _ m Hdet).
    destruct (in_dec string_dec m _) as [Hin|_]; [|reflexivity].
    apply Hkeys in Hin. tauto.
Qed.

Lemma add_expense_ratio_shares_witness :
  exists splits,
    add_expense (mkSplitter [] [] ["A"; "B"; "C"]) "id-1"
      "2024-01-01 00:00:00" "Taxi" (Q2Qc 100) ["A"] [("A", Q2Qc 100)]
      ["A"; "B"; "C"] "ratio" None (Some [("A", Q2Qc 2); ("B", Q2Qc 3)])
      "General"
    = Ok (mkSplitter
            [Expense.mk "id-1" "Taxi" (Q2Qc 100) ["A"] [("A", Q2Qc 100)]
               ["A"; "B"; "C"] splits "2024-01-01 00:00:00" "General"]
            [] ["A"; "B"; "C"],
          "id-1")
    /\ Dict.get "C" splits = None.
Proof.
  destruct (add_expense_ratio_shares (mkSplitter [] [] ["A"; "B"; "C"])
              "id-1" "2024-01-01 00:00:00" "Taxi" (Q2Qc 100) ["A"]
              [("A", Q2Qc 100)] ["A"; "B"; "C"] None ("A", Q2Qc 2)
              [("B", Q2Qc 3)] "General")
    as [splits [H1 [_ [H3 _]]]].
  - intros H. apply Qceqb_eq in H. vm_compute in H. discriminate H.
  - exists splits. split; [exact H1|]. apply H3. reflexivity.
Defined.

Lemma ratio_entries_zero_total amount r split_among m :
  In m split_among -> In m (Dict.keys r) ->
  ratio_entries amount 0 r split_among = Raise ZeroDivisionError.
Proof.
  intros Hm Hr. induction split_among as [|x rest IH]; [contradiction|].
  cbn [ratio_entries]. destruct (Dict.get x r) as [w|] eqn:E.
  - reflexivity.
  - destruct Hm as [->|Hm]; [|apply IH; exact Hm].
    apply DictFacts.get_None_iff in E. contradiction.
Qed.

(** X2.  With split type "ratio", when the weights sum to zero and some name
    of [split_among] has a weight, [add_expense] raises [ZeroDivisionError]
    and stores nothing. *)
Theorem add_expense_ratio_zero_total
  (self : ExpenseSplitter) (uuid4 now description : string) (amount : Qc)
  (paid_by : list string) (paid_amounts : Dict.t Qc)
  (split_among : list string) (custom_splits : option (Dict.t Qc))
  (kv : string * Qc) (r : Dict.t Qc) (group : string) (m : string) :
  py_sum (Dict.values (kv :: r)) = 0 ->
  In m split_among -> In m (Dict.keys (kv :: r)) ->
  add_expense self uuid4 now description amount paid_by paid_amounts
    split_among "ratio" custom_splits (Some (kv :: r)) group
  = Raise ZeroDivisionError.
Proof.
  intros Hzero Hm Hr. unfold add_expense, compute_splits, ratio_split.
  cbn [String.eqb Ascii.eqb Bool.eqb andb Dict.truthy Dict.unwrap].
  rewrite Hzero. rewrite (ratio_entries_zero_total amount (kv :: r)
                            split_among m Hm Hr).
  reflexivity.
Qed.

Lemma add_expense_ratio_zero_total_witness :
  add_expense (mkSplitter [] [] ["A"; "B"]) "id-1" "2024-01-01 00:00:00"
    "Taxi" (Q2Qc 100) ["A"] [("A", Q2Qc 100)] ["A"; "B"] "ratio" None
    (Some [("A", Q2Qc 1); ("B", Q2Qc (-1))]) "General"
  = Raise ZeroDivisionError.
Proof.
  apply (add_expense_ratio_zero_total (mkSplitter [] [] ["A"; "B"]) "id-1"
           "2024-01-01 00:00:00" "Taxi" (Q2Qc 100) ["A"] [("A", Q2Qc 100)]
           ["A"; "B"] None ("A", Q2Qc 1) [("B", Q2Qc (-1))] "General" "A").
  - apply Qc_is_canon. reflexivity.
  - left. reflexivity.
  - left. reflexivity.
Defined.

(** ** The two copies *)

(** X3.  The earlier copy's [add_expense] is [app.py]'s called without
    [ratio_splits]: same result and same stored expense for every input. *)
Theorem clone_add_expense_is_app_without_ratio
  (self : ExpenseSplitter) (uuid4 now description : string) (amount : Qc)
  (paid_by : list string) (paid_amounts : Dict.t Qc)
  (split_among : list string) (split_type : string)
  (custom_splits : option (Dict.t Qc)) (group : string) :
  SplitwiseClone.add_expense self uuid4 now description amount paid_by
    paid_amounts split_among split_type custom_splits group
  = add_expense self uuid4 now description amount paid_by paid_amounts
      split_among split_type custom_splits None group.
Proof.
  unfold SplitwiseClone.add_expense, add_expense,
    SplitwiseClone.compute_splits, compute_splits.
  destruct (split_type =? "equal"); [reflexivity|].
  destruct ((split_type =? "custom") && Dict.truthy custom_splits)%bool;
    [reflexivity|].
  cbn [Dict.truthy]. rewrite andb_false_r. reflexivity.
Qed.

(** ** Deleting expenses *)

Lemma with_expenses_same (self : ExpenseSplitter) :
  with_expenses self (expenses self) = self.
Proof. destruct self. reflexivity. Qed.

Lemma delete_expense_unknown (self : ExpenseSplitter) (expense_id : string) :
  (forall e, In e (expenses self) -> Expense.id e <> expense_id) ->
  delete_expense self expense_id = self.
Proof.
  intros H. unfold delete_expense. rewrite filter_all_true.
  - apply with_expenses_same.
  - intros e He. apply negb_true_iff. apply String.eqb_neq. exact (H e He).
Qed.

(** X4.  [delete_expense] removes every expense that carries the id and
    nothing else: afterwards no stored expense has the id, an id that no
    expense carries leaves the ledger as it is, and deleting a second time
    changes nothing. *)
Theorem delete_expense_effect (self : ExpenseSplitter) (expense_id : string) :
  (forall e, In e (expenses (delete_expense self expense_id)) <->
             In e (expenses self) /\ Expense.id e <> expense_id)
  /\ ((forall e, In e (expenses self) -> Expense.id e <> expense_id) ->
      delete_expense self expense_id = self)
  /\ delete_expense (delete_expense self expense_id) expense_id
     = delete_expense self expense_id.
Proof.
  assert (Hin : forall e, In e (expenses (delete_expense self expense_id)) <->
                          In e (expenses self) /\ Expense.id e <> expense_id).
  { intros e. unfold delete_expense. cbn [with_expenses expenses].
    rewrite filter_In, negb_true_iff, String.eqb_neq. tauto. }
  split; [exact Hin|]. split; [apply delete_expense_unknown|].
  apply delete_expense_unknown. intros e He. apply Hin in He. tauto.
Qed.

Lemma delete_expense_effect_witness :
  let self :=
    mkSplitter
      [Expense.mk "id-1" "Dinner" (Q2Qc 90) ["A"] [("A", Q2Qc 90)]
         ["A"; "B"; "C"] [("A", Q2Qc 30); ("B", Q2Qc 30); ("C", Q2Qc 30)]
         "2024-01-01 00:00:00" "General"]
      [] ["A"; "B"; "C"] in
  delete_expense self "id-2" = self.
Proof.
  intros self.
  apply (proj1 (proj2 (delete_expense_effect self "id-2"))).
  intros e [<-|[]]. discriminate.
Defined.

(** X5.  Deleting the id returned by [add_expense] undoes the call, provided
    the id drawn was not already carried by a stored expense. *)
Theorem delete_after_add_expense
  (self self' : ExpenseSplitter) (uuid4 now description : string)
  (amount : Qc) (paid_by : list string) (paid_amounts : Dict.t Qc)
  (split_among : list string) (split_type : string)
  (custom_splits ratio_splits : option (Dict.t Qc)) (group : string)
  (expense_id : string) :
  (forall e, In e (expenses self) -> Expense.id e <> uuid4) ->
  add_expense self uuid4 now description amount paid_by paid_amounts
    split_among split_type custom_splits ratio_splits group
  = Ok (self', expense_id) ->
  delete_expense self' expense_id = self.
Proof.
  intros Hfresh. unfold add_expense.
  destruct (compute_splits _ _ _ _ _) as [splits|err]; cbn [bind];
    [|discriminate].
  intros [= <- <-]. unfold delete_expense. cbn [with_expenses expenses
                                                  groups members].
  rewrite filter_app. cbn [filter Expense.id].
  rewrite String.eqb_refl. cbn [negb]. rewrite app_nil_r.
  rewrite filter_all_true.
  - destruct self. reflexivity.
  - intros e He. apply negb_true_iff. apply String.eqb_neq.
    exact (Hfresh e He).
Qed.

Lemma delete_after_add_expense_witness :
  let self :=
    mkSplitter
      [Expense.mk "id-1" "Dinner" (Q2Qc 90) ["A"] [("A", Q2Qc 90)]
         ["A"; "B"; "C"] [("A", Q2Qc 30); ("B", Q2Qc 30); ("C", Q2Qc 30)]
         "2024-01-01 00:00:00" "General"]
      [] ["A"; "B"; "C"] in
  delete_expense
    (with_expenses self
       (expenses self ++
        [Expense.mk "id-2" "Taxi" (Q2Qc 20) ["B"] [("B", Q2Qc 20)] ["A"; "B"]
           (zero_splits ["A"; "B"]) "2024-01-02 00:00:00" "Trip"]))
    "id-2"
  = self.
Proof.
  intros self.
  apply (delete_after_add_expense self _ "id-2" "2024-01-02 00:00:00" "Taxi"
           (Q2Qc 20) ["B"] [("B", Q2Qc 20)] ["A"; "B"] "percentage" None
           None "Trip" "id-2").
  - intros e [<-|[]]. discriminate.
  - reflexivity.
Defined.

(** ** The member registry *)

(** X6.  [add_member] refuses the empty name and a name already registered,
    [remove_member] refuses a name that is not registered; a refused call
    returns [False] and leaves the splitter as it is. *)
Theorem member_calls_refused (self : ExpenseSplitter) (name : string) :
  add_member self "" = (self, false)
  /\ (In name (members self) -> add_member self name = (self, false))
  /\ (~ In name (members self) -> remove_member self name = (self, false)).
Proof.
  split; [reflexivity|]. split.
  - intros Hin. unfold add_member.
    apply in_set_In in Hin. rewrite Hin.
    rewrite andb_false_r. reflexivity.
  - intros Hn. unfold remove_member.
    destruct (in_set name (members self)) eqn:E; [|reflexivity].
    apply in_set_In in E. contradiction.
Qed.

Lemma member_calls_refused_witness :
  add_member (mkSplitter [] [] ["A"; "B"]) "B"
  = (mkSplitter [] [] ["A"; "B"], false)
  /\ remove_member (mkSplitter [] [] ["A"; "B"]) "C"
     = (mkSplitter [] [] ["A"; "B"], false).
Proof.
  destruct (member_calls_refused (mkSplitter [] [] ["A"; "B"]) "B")
    as [_ [H1 _]].
  destruct (member_calls_refused (mkSplitter [] [] ["A"; "B"]) "C")
    as [_ [_ H2]].
  split.
  - apply H1. simpl. tauto.
  - apply H2. simpl. intuition discriminate.
Defined.

(** X7.  Adding a new, non-empty name and then removing it succeeds twice
    and gives back the splitter one started from; in between, the name is
    registered. *)
Theorem remove_after_add_member (self : ExpenseSplitter) (name : string) :
  name <> "" -> ~ In name (members self) ->
  snd (add_member self name) = true
  /\ In name (members (fst (add_member self name)))
  /\ remove_member (fst (add_member self name)) name = (self, true).
Proof.
  intros Hne Hnew. unfold add_member.
  assert (E1 : (name =? "") = false) by (apply String.eqb_neq; exact Hne).
  assert (E2 : in_set name (members self) = false).
  { destruct (in_set name (members self)) eqn:E; [|reflexivity].
    apply in_set_In in E. contradiction. }
  rewrite E1, E2. cbn [negb andb fst snd members].
  split; [reflexivity|]. split.
  - apply in_or_app. right. left. reflexivity.
  - unfold remove_member. cbn [members expenses groups].
    assert (E3 : in_set name (members self ++ [name]) = true).
    { apply in_set_In. apply in_or_app. right. left. reflexivity. }
    rewrite E3. rewrite filter_app. cbn [filter].
    rewrite String.eqb_refl. cbn [negb]. rewrite app_nil_r.
    rewrite filter_all_true.
    + destruct self. reflexivity.
    + intros m Hm. apply negb_true_iff. apply String.eqb_neq.
      intros ->. contradiction.
Qed.

Lemma remove_after_add_member_witness :
  remove_member (fst (add_member (mkSplitter [] [] ["A"; "B"]) "C")) "C"
  = (mkSplitter [] [] ["A"; "B"], true).
Proof.
  refine (proj2 (proj2 (remove_after_add_member
                          (mkSplitter [] [] ["A"; "B"]) "C" _ _))).
  - discriminate.
  - simpl. intuition discriminate.
Defined.

(** ** Groups *)

(** X8.  [add_group] never overwrites: for a name already in use it returns
    [False] and leaves the splitter as it is; for a new name it returns
    [True], the new group then holds the given names, every other group
    holds what it held, and expenses and members are untouched. *)
Theorem add_group_effect (self : ExpenseSplitter) (group_name : string)
  (names : list string) :
  (In group_name (Dict.keys (groups self)) ->
   add_group self group_name names = (self, false))
  /\ (~ In group_name (Dict.keys (groups self)) ->
      snd (add_group self group_name names) = true /\
      Dict.get group_name (groups (fst (add_group self group_name names)))
      = Some names /\
      (forall g, g <> group_name ->
         Dict.get g (groups (fst (add_group self group_name names)))
         = Dict.get g (groups self)) /\
      expenses (fst (add_group self group_name names)) = expenses self /\
      members (fst (add_group self group_name names)) = members self).
Proof.
  unfold add_group, Dict.mem. split.
  - intros Hin. destruct (DictFacts.In_get_Some _ _ Hin) as [v ->].
    reflexivity.
  - intros Hn. apply DictFacts.get_None_iff in Hn. rewrite Hn.
    cbn [fst snd groups expenses members]. repeat split.
    + apply DictFacts.get_set_same.
    + intros g Hg. apply DictFacts.get_set_other. congruence.
Qed.

Lemma add_group_effect_witness :
  add_group (mkSplitter [] [("Trip", ["A"])] ["A"; "B"]) "Trip" ["B"]
  = (mkSplitter [] [("Trip", ["A"])] ["A"; "B"], false)
  /\ Dict.get "Home"
       (groups (fst (add_group (mkSplitter [] [("Trip", ["A"])] ["A"; "B"])
                       "Home" ["B"])))
     = Some ["B"].
Proof.
  split.
  - apply (proj1 (add_group_effect
                    (mkSplitter [] [("Trip", ["A"])] ["A"; "B"]) "Trip"
                    ["B"])).
    simpl. tauto.
  - apply (proj2 (add_group_effect
                    (mkSplitter [] [("Trip", ["A"])] ["A"; "B"]) "Home"
                    ["B"])).
    simpl. intuition discriminate.
Defined.

(** ** Balances and the other operations *)

Lemma get_calculate_balances_outsider self gf m :
  ~ In m (members self) -> Dict.get m (calculate_balances self gf) = None.
Proof.
  intros H. apply DictFacts.get_None_iff.
  rewrite keys_calculate_balances, keys_initial_balances. exact H.
Qed.

(** X9.  [remove_member] leaves the expenses as they are, also those that
    name the removed member.  Afterwards the removed member has no balance,
    and every other member's balance is what it was: the amounts paid and
    owed by the removed member are no longer counted by anybody. *)
Theorem balances_after_remove_member (self : ExpenseSplitter)
  (name : string) (group_filter : option string) :
  In name (members self) ->
  snd (remove_member self name) = true
  /\ expenses (fst (remove_member self name)) = expenses self
  /\ Dict.get name (calculate_balances (fst (remove_member self name))
                      group_filter) = None
  /\ (forall m, m <> name ->
        Dict.get m (calculate_balances (fst (remove_member self name))
                      group_filter)
        = Dict.get m (calculate_balances self group_filter)).
Proof.
  intros Hin. unfold remove_member.
  assert (E : in_set name (members self) = true) by (apply in_set_In; auto).
  rewrite E. cbn [fst snd].
  set (self' := mkSplitter (expenses self) (groups self)
                  (filter (fun m => negb (m =? name)) (members self))).
  assert (Hmem : forall m, In m (members self') <->
                           In m (members self) /\ m <> name).
  { intros m. unfold self'. cbn [members].
    rewrite filter_In, negb_true_iff, String.eqb_neq. tauto. }
  assert (Hscope : expenses_to_process self' group_filter
                   = expenses_to_process self group_filter) by reflexivity.
  split; [reflexivity|]. split; [reflexivity|]. split.
  - apply get_calculate_balances_outsider. rewrite Hmem. tauto.
  - intros m Hm. destruct (in_dec string_dec m (members self)) as [Hi|Hn].
    + rewrite !get_calculate_balances; [|exact Hi|apply Hmem; tauto].
      rewrite Hscope. reflexivity.
    + rewrite !get_calculate_balances_outsider; [reflexivity|exact Hn|].
      rewrite Hmem. tauto.
Qed.

Lemma balances_after_remove_member_witness :
  let self :=
    mkSplitter
      [Expense.mk "id-1" "Dinner" (Q2Qc 90) ["A"] [("A", Q2Qc 90)]
         ["A"; "B"; "C"] [("A", Q2Qc 30); ("B", Q2Qc 30); ("C", Q2Qc 30)]
         "2024-01-01 00:00:00" "General"]
      [] ["A"; "B"; "C"] in
  Dict.get "A" (calculate_balances (fst (remove_member self "A")) None)
  = None
  /\ Dict.get "B" (calculate_balances (fst (remove_member self "A")) None)
     = Dict.get "B" (calculate_balances self None).
Proof.
  intros self.
  destruct (balances_after_remove_member self "A" None) as [_ [_ [H1 H2]]].
  - simpl. tauto.
  - split; [exact H1|]. apply H2. discriminate.
Defined.

Lemma expenses_to_process_app es e gs ms gf :
  expenses_to_process (mkSplitter (es ++ [e]) gs ms) gf
  = expenses_to_process (mkSplitter es gs ms) gf
    ++ match gf with
       | Some g =>
           if (negb (g =? "") && negb (g =? "All Groups"))%bool
           then (if Expense.group e =? g then [e] else [])
           else [e]
       | None => [e]
       end.
Proof.
  unfold expenses_to_process. cbn [expenses].
  destruct gf as [g|]; [|reflexivity].
  destruct (negb (g =? "") && negb (g =? "All Groups"))%bool; [|reflexivity].
  rewrite filter_app. cbn [filter].
  destruct (Expense.group e =? g); reflexivity.
Qed.

(** X10.  A successful [add_expense] moves the balances by the new expense
    alone: the unfiltered balances, and those of the expense's own group,
    are the previous ones with the payments added and the shares
    subtracted; the balances of every other group are unchanged. *)
Theorem balances_after_add_expense
  (self self' : ExpenseSplitter) (uuid4 now description : string)
  (amount : Qc) (paid_by : list string) (paid_amounts : Dict.t Qc)
  (split_among : list string) (split_type : string)
  (custom_splits ratio_splits : option (Dict.t Qc)) (group : string)
  (expense_id : string) :
  add_expense self uuid4 now description amount paid_by paid_amounts
    split_among split_type custom_splits ratio_splits group
  = Ok (self', expense_id) ->
  exists e,
    expenses self' = expenses self ++ [e]
    /\ Expense.paid_amounts e = paid_amounts
    /\ calculate_balances self' None
       = process_expense (calculate_balances self None) e
    /\ (group <> "" -> group <> "All Groups" ->
        calculate_balances self' (Some group)
        = process_expense (calculate_balances self (Some group)) e)
    /\ (forall g, g <> "" -> g <> "All Groups" -> g <> group ->
          calculate_balances self' (Some g)
          = calculate_balances self (Some g)).
Proof.
  unfold add_expense.
  destruct (compute_splits _ _ _ _ _) as [splits|err]; cbn [bind];
    [|discriminate].
  intros [= <- _].
  set (e := Expense.mk uuid4 description amount paid_by paid_amounts
              split_among splits now group).
  exists e. destruct self as [es gs ms].
  unfold with_expenses. cbn [expenses groups members].
  split; [reflexivity|]. split; [reflexivity|].
  unfold calculate_balances. cbn [members].
  split; [|split].
  - rewrite expenses_to_process_app, fold_left_app. reflexivity.
  - intros H1 H2. rewrite expenses_to_process_app, fold_left_app.
    apply String.eqb_neq in H1. apply String.eqb_neq in H2.
    rewrite H1, H2. cbn [negb andb Expense.group e].
    rewrite String.eqb_refl. reflexivity.
  - intros g H1 H2 H3. rewrite expenses_to_process_app.
    apply String.eqb_neq in H1. apply String.eqb_neq in H2.
    rewrite H1, H2. cbn [negb andb Expense.group e].
    assert (E : (group =? g) = false)
      by (apply String.eqb_neq; congruence).
    rewrite E, app_nil_r. reflexivity.
Qed.

Lemma balances_after_add_expense_witness :
  exists e,
    calculate_balances
      (mkSplitter
         [Expense.mk "id-1" "Dinner" (Q2Qc 90) ["A"] [("A", Q2Qc 90)]
            ["A"; "B"] (zero_splits ["A"; "B"]) "2024-01-01 00:00:00"
            "Trip"]
         [] ["A"; "B"]) None
    = process_expense (calculate_balances (mkSplitter [] [] ["A"; "B"]) None)
        e.
Proof.
  destruct (balances_after_add_expense (mkSplitter [] [] ["A"; "B"])
              (mkSplitter
                 [Expense.mk "id-1" "Dinner" (Q2Qc 90) ["A"]
                    [("A", Q2Qc 90)] ["A"; "B"] (zero_splits ["A"; "B"])
                    "2024-01-01 00:00:00" "Trip"]
                 [] ["A"; "B"])
              "id-1" "2024-01-01 00:00:00" "Dinner" (Q2Qc 90) ["A"]
              [("A", Q2Qc 90)] ["A"; "B"] "percentage" None None "Trip"
              "id-1" eq_refl)
    as [e [_ [_ [H _]]]].
  exists e. exact H.
Defined.

(** *** Groups as sub-ledgers *)

Lemma expenses_to_process_group self g :
  g <> "" -> g <> "All Groups" ->
  expenses_to_process self (Some g) = get_group_expenses self g.
Proof.
  intros H1 H2. unfold expenses_to_process, get_group_expenses.
  apply String.eqb_neq in H1. apply String.eqb_neq in H2.
  rewrite H1, H2. reflexivity.
Qed.

(** X11.  A group filter other than the empty string and "All Groups"
    selects exactly the expenses that [get_group_expenses] returns, and the
    balances it gives are the unfiltered balances of a ledger that holds
    only those expenses.  The filters "" and "All Groups" select every
    expense, so expenses filed under a group that is itself named
    "All Groups" cannot be looked at on their own. *)
Theorem group_filter_selects (self : ExpenseSplitter) (g : string) :
  (g <> "" -> g <> "All Groups" ->
   expenses_to_process self (Some g) = get_group_expenses self g /\
   calculate_balances self (Some g)
   = calculate_balances (with_expenses self (get_group_expenses self g))
       None)
  /\ calculate_balances self (Some "All Groups")
     = calculate_balances self None
  /\ calculate_balances self (Some "") = calculate_balances self None.
Proof.
  split; [|split; reflexivity].
  intros H1 H2. split; [apply expenses_to_process_group; assumption|].
  unfold calculate_balances.
  rewrite (expenses_to_process_group self g H1 H2). reflexivity.
Qed.

Lemma group_filter_selects_witness :
  let self :=
    mkSplitter
      [Expense.mk "id-1" "Dinner" (Q2Qc 90) ["A"] [("A", Q2Qc 90)]
         ["A"; "B"; "C"] [("A", Q2Qc 30); ("B", Q2Qc 30); ("C", Q2Qc 30)]
         "2024-01-01 00:00:00" "General";
       Expense.mk "id-2" "Taxi" (Q2Qc 20) ["B"] [("B", Q2Qc 20)]
         ["A"; "B"] [("A", Q2Qc 10); ("B", Q2Qc 10)]
         "2024-01-02 00:00:00" "Trip"]
      [] ["A"; "B"; "C"] in
  calculate_balances self (Some "Trip")
  = calculate_balances (with_expenses self (get_group_expenses self "Trip"))
      None.
Proof.
  intros self.
  refine (proj2 (proj1 (group_filter_selects self "Trip") _ _));
    discriminate.
Defined.

(** ** More on the settlement planner *)

Section PlannerShape.
Import Dict DictFacts.

Lemma decrease_keys k x C C1 :
  decrease k x C = Ok C1 -> keys C1 = keys C.
Proof.
  unfold decrease. destruct (get k C) as [v|] eqn:E; [|discriminate].
  intros [= <-]. apply keys_set_present. eapply get_Some_In. exact E.
Qed.

Lemma pay_creditors_keys debtor :
  forall snapshot r C S r' C' S',
    pay_creditors debtor snapshot r C S = Ok (r', C', S') ->
    keys C' = keys C.
Proof.
  induction snapshot as [|[k v] rest IH]; intros r C S r' C' S';
    cbn [pay_creditors].
  - intros [= _ <- _]. reflexivity.
  - destruct (Qcleb r eps); [intros [= _ <- _]; reflexivity|].
    destruct (Qcltb eps v); [|apply IH].
    destruct (decrease k (py_min r v) C) as [C1|err] eqn:E; cbn [bind];
      [|discriminate].
    intros H. rewrite (IH _ _ _ _ _ _ H). eapply decrease_keys. exact E.
Qed.

Lemma py_min_above (r v : Qc) : eps < r -> eps < v -> eps < py_min r v.
Proof.
  intros Hr Hv. destruct (py_min_spec r v) as [[_ ->]|[_ ->]]; assumption.
Qed.

(** Every settlement written for a debtor exceeds 0.01 and goes to a
    creditor of the snapshot. *)
Lemma pay_creditors_shape debtor :
  forall snapshot r C S r' C' S',
    pay_creditors debtor snapshot r C S = Ok (r', C', S') ->
    exists S1,
      S' = S ++ S1 /\
      Forall (fun x => eps < Settlement.amount x /\
                       Settlement.from x = debtor /\
                       In (Settlement.to x) (keys snapshot)) S1.
Proof.
  induction snapshot as [|[k v] rest IH]; intros r C S r' C' S';
    cbn [pay_creditors].
  - intros [= _ _ <-]. exists []. rewrite app_nil_r. auto.
  - destruct (Qcleb r eps) eqn:Ebreak.
    { intros [= _ _ <-]. exists []. rewrite app_nil_r. auto. }
    apply Qcleb_gt in Ebreak.
    destruct (Qcltb eps v) eqn:Ecredit.
    + apply Qcltb_lt in Ecredit.
      destruct (decrease k (py_min r v) C) as [C1|err]; cbn [bind];
        [|discriminate].
      intros H. destruct (IH _ _ _ _ _ _ H) as [S1 [-> Hall]].
      exists (Settlement.mk debtor k (py_min r v) :: S1).
      split; [rewrite <- app_assoc; reflexivity|].
      constructor.
      * cbn. repeat split; auto. apply py_min_above; assumption.
      * eapply Forall_impl; [|exact Hall]. cbv beta.
        intros x [H1 [H2 H3]]. repeat split; auto. right. exact H3.
    + intros H. destruct (IH _ _ _ _ _ _ H) as [S1 [-> Hall]].
      exists S1. split; [reflexivity|].
      eapply Forall_impl; [|exact Hall]. cbv beta.
      intros x [H1 [H2 H3]]. repeat split; auto. right. exact H3.
Qed.

Lemma settle_debtors_shape :
  forall debtors C S S',
    settle_debtors debtors C S = Ok S' ->
    exists S1,
      S' = S ++ S1 /\
      Forall (fun x => eps < Settlement.amount x /\
                       In (Settlement.from x) (keys debtors) /\
                       In (Settlement.to x) (keys C)) S1.
Proof.
  induction debtors as [|[d debt] rest IH]; intros C S S';
    cbn [settle_debtors].
  - intros [= <-]. exists []. rewrite app_nil_r. auto.
  - destruct (pay_creditors d (items C) debt C S) as [[[r' C'] Sa]|err]
      eqn:E; cbn [bind fst snd]; [|discriminate].
    intros H. destruct (pay_creditors_shape _ _ _ _ _ _ _ _ E)
      as [S1 [-> Hall1]].
    destruct (IH _ _ _ H) as [S2 [-> Hall2]].
    rewrite (pay_creditors_keys _ _ _ _ _ _ _ _ E) in Hall2.
    exists (S1 ++ S2). split; [rewrite app_assoc; reflexivity|].
    apply Forall_app. split.
    + eapply Forall_impl; [|exact Hall1]. cbv beta.
      intros x [H1 [H2 H3]]. repeat split; auto. left. symmetry. exact H2.
    + eapply Forall_impl; [|exact Hall2]. cbv beta.
      intros x [H1 [H2 H3]]. repeat split; auto. right. exact H2.
Qed.

Lemma In_keys_creditors_of b k :
  NoDup (keys b) -> In k (keys (creditors_of b)) ->
  exists v, get k b = Some v /\ eps < v.
Proof.
  intros Hnd. rewrite (creditors_of_filter b Hnd). intros H.
  apply In_keys_filter in H. destruct H as [v [Hin Hf]].
  exists v. split; [apply In_items_get; assumption|].
  apply Qcltb_lt. exact Hf.
Qed.

Lemma In_keys_debtors_of b k :
  NoDup (keys b) -> In k (keys (debtors_of b)) ->
  exists v, get k b = Some v /\ v < - eps.
Proof.
  intros Hnd. rewrite (debtors_of_map b Hnd), keys_debtor_entries.
  intros H. apply In_keys_filter in H. destruct H as [v [Hin Hf]].
  exists v. split; [apply In_items_get; assumption|].
  apply Qcltb_lt. exact Hf.
Qed.

Lemma settlements_of_shape b S :
  NoDup (keys b) -> settlements_of b = Ok S ->
  Forall (fun x =>
            eps < Settlement.amount x /\
            (exists v, get (Settlement.from x) b = Some v /\ v < - eps) /\
            (exists v, get (Settlement.to x) b = Some v /\ eps < v) /\
            Settlement.from x <> Settlement.to x) S.
Proof.
  intros Hnd H. unfold settlements_of in H.
  destruct (settle_debtors_shape _ _ _ _ H) as [S1 [-> Hall]].
  cbn [app]. eapply Forall_impl; [|exact Hall]. cbv beta.
  intros x [H1 [H2 H3]].
  destruct (In_keys_debtors_of b _ Hnd H2) as [v [Hv Hlt]].
  destruct (In_keys_creditors_of b _ Hnd H3) as [w [Hw Hgt]].
  repeat split; eauto.
  intros E. rewrite E in Hv. rewrite Hv in Hw. injection Hw as <-.
  pose proof eps_pos. qc_lra.
Qed.

(** *** Nothing to settle *)

Lemma settle_debtors_no_creditors debtors S :
  settle_debtors debtors [] S = Ok S.
Proof.
  induction debtors as [|[d debt] rest IH]; [reflexivity|].
  cbn [settle_debtors items pay_creditors bind fst snd]. exact IH.
Qed.

Lemma settlements_of_no_creditor b :
  NoDup (keys b) ->
  (forall m v, get m b = Some v -> v <= eps) ->
  settlements_of b = Ok [].
Proof.
  intros Hnd H. unfold settlements_of.
  rewrite (creditors_of_filter b Hnd).
  rewrite (filter_all_false is_creditor b).
  - apply settle_debtors_no_creditors.
  - intros [k v] Hin. apply Qcltb_ge. cbn [snd].
    apply (H k). apply In_items_get; assumption.
Qed.

Lemma settlements_of_no_debtor b :
  NoDup (keys b) ->
  (forall m v, get m b = Some v -> - eps <= v) ->
  settlements_of b = Ok [].
Proof.
  intros Hnd H. unfold settlements_of.
  rewrite (debtors_of_map b Hnd).
  rewrite (filter_all_false is_debtor b).
  - reflexivity.
  - intros [k v] Hin. apply Qcltb_ge. cbn [snd].
    apply (H k). apply In_items_get; assumption.
Qed.

(** *** Counting the settlements *)

Lemma live_set_le k v v' (C : Dict.t Qc) :
  get k C = Some v -> v' <= v -> (live (set k v' C) <= live C)%nat.
Proof.
  unfold live. induction C as [|[k0 v0] C IH]; cbn [get set]; [discriminate|].
  destruct (String.eqb_spec k0 k) as [->|Hne].
  - intros [= ->] Hle. cbn [filter].
    change (is_creditor (k, v')) with (Qcltb eps v').
    change (is_creditor (k, v)) with (Qcltb eps v).
    destruct (Qcltb eps v') eqn:E1.
    + apply Qcltb_lt in E1.
      assert (E2 : Qcltb eps v = true) by (apply Qcltb_lt; qc_lra).
      rewrite E2. apply Nat.le_refl.
    + destruct (Qcltb eps v); cbn [List.length]; lia.
  - intros Hget Hle. cbn [filter]. specialize (IH Hget Hle).
    destruct (is_creditor (k0, v0)); cbn [List.length]; lia.
Qed.

Lemma live_set_drop k v v' (C : Dict.t Qc) :
  get k C = Some v -> eps < v -> v' <= eps ->
  (live (set k v' C) + 1 <= live C)%nat.
Proof.
  unfold live. induction C as [|[k0 v0] C IH]; cbn [get set]; [discriminate|].
  destruct (String.eqb_spec k0 k) as [->|Hne].
  - intros [= ->] Hv Hv'. cbn [filter].
    change (is_creditor (k, v')) with (Qcltb eps v').
    change (is_creditor (k, v)) with (Qcltb eps v).
    assert (E1 : Qcltb eps v' = false) by (apply Qcltb_ge; exact Hv').
    assert (E2 : Qcltb eps v = true) by (apply Qcltb_lt; exact Hv).
    rewrite E1, E2. cbn [List.length]. lia.
  - intros Hget Hv Hv'. cbn [filter]. specialize (IH Hget Hv Hv').
    destruct (is_creditor (k0, v0)); cbn [List.length]; lia.
Qed.

Lemma pay_creditors_done debtor snapshot r C S :
  r <= eps -> pay_creditors debtor snapshot r C S = Ok (r, C, S).
Proof.
  intros H. apply Qcleb_le in H.
  destruct snapshot as [|[k v] rest]; cbn [pay_creditors];
    [|rewrite H]; reflexivity.
Qed.

(** One pass writes at most one settlement more than the number of
    creditors it brings down to 0.01 or less. *)
Lemma pay_creditors_count debtor :
  forall snapshot r C S r' C' S',
    NoDup (keys snapshot) ->
    (forall k v, In (k, v) snapshot -> get k C = Some v) ->
    pay_creditors debtor snapshot r C S = Ok (r', C', S') ->
    (List.length S' + live C' <= List.length S + live C + 1)%nat.
Proof.
  induction snapshot as [|[k v] rest IH]; intros r C S r' C' S' Hnd Hsnap;
    cbn [pay_creditors].
  - intros [= _ <- <-]. lia.
  - destruct (Qcleb r eps) eqn:Ebreak; [intros [= _ <- <-]; lia|].
    apply Qcleb_gt in Ebreak.
    inversion Hnd as [|? ? Hk Hnd']; subst.
    assert (Hkv : get k C = Some v) by (apply Hsnap; left; reflexivity).
    destruct (Qcltb eps v) eqn:Ecredit.
    + apply Qcltb_lt in Ecredit. unfold decrease. rewrite Hkv. cbn [bind].
      pose proof eps_pos as Heps.
      destruct (py_min_spec r v) as [[Hlt Hmin]|[Hle Hmin]]; rewrite Hmin.
      * intros H. apply IH in H; auto.
        -- pose proof (live_set_drop k v (v - v) C Hkv Ecredit) as Hdrop.
           rewrite length_app in H. cbn [List.length] in H.
           assert (Hz : v - v <= eps) by qc_lra.
           specialize (Hdrop Hz). lia.
        -- intros k' v' Hin. rewrite get_set_other.
           ++ apply Hsnap. right. exact Hin.
           ++ intros ->. apply Hk. apply (in_map fst) in Hin. exact Hin.
      * rewrite pay_creditors_done by qc_lra.
        intros [= _ <- <-]. rewrite length_app. cbn [List.length].
        assert (Hz : v - r <= v) by qc_lra.
        pose proof (live_set_le k v (v - r) C Hkv Hz). lia.
    + intros H. apply IH in H; auto.
      intros k' v' Hin. apply Hsnap. right. exact Hin.
Qed.

Lemma settle_debtors_count :
  forall debtors C S S',
    NoDup (keys C) ->
    settle_debtors debtors C S = Ok S' ->
    (List.length S' <= List.length S + live C + List.length debtors)%nat.
Proof.
  induction debtors as [|[d debt] rest IH]; intros C S S' Hnd;
    cbn [settle_debtors].
  - intros [= <-]. lia.
  - destruct (pay_creditors d (items C) debt C S) as [[[r' C'] Sa]|err]
      eqn:E; cbn [bind fst snd]; [|discriminate].
    intros H.
    pose proof (pay_creditors_keys _ _ _ _ _ _ _ _ E) as Hkeys.
    apply pay_creditors_count in E.
    + apply IH in H; [|rewrite Hkeys; exact Hnd].
      cbn [List.length]. lia.
    + exact Hnd.
    + intros k v Hin. apply In_items_get; assumption.
Qed.

Lemma filter_filter_same {A : Type} (f : A -> bool) (l : list A) :
  filter f (filter f l) = filter f l.
Proof.
  apply filter_all_true. intros x Hx. apply filter_In in Hx. tauto.
Qed.

Lemma length_disjoint_filters {A : Type} (f g : A -> bool) (l : list A) :
  (forall x, f x = true -> g x = false) ->
  (List.length (filter f l) + List.length (filter g l) <= List.length l)%nat.
Proof.
  intros H. induction l as [|x l IH]; cbn [filter List.length]; [lia|].
  destruct (f x) eqn:E.
  - rewrite (H x E). cbn [List.length]. lia.
  - destruct (g x); cbn [List.length]; lia.
Qed.

Lemma creditor_not_debtor kv : is_creditor kv = true -> is_debtor kv = false.
Proof.
  unfold is_creditor, is_debtor. intros H. apply Qcltb_lt in H.
  apply Qcltb_ge. pose proof eps_pos. qc_lra.
Qed.

Lemma settlements_of_count b S :
  NoDup (keys b) -> settlements_of b = Ok S ->
  (List.length S
   <= List.length (filter is_creditor b) + List.length (filter is_debtor b))%nat.
Proof.
  intros Hnd H. unfold settlements_of in H.
  apply settle_debtors_count in H.
  - rewrite (creditors_of_filter b Hnd), (debtors_of_map b Hnd) in H.
    unfold live, items in H. rewrite filter_filter_same, length_map in H.
    cbn [List.length] in H. lia.
  - rewrite (creditors_of_filter b Hnd). apply NoDup_keys_filter. exact Hnd.
Qed.
End PlannerShape.

(** X12.  Every settlement that [get_settlements] lists has an amount above
    0.01, is paid by a member whose balance is below -0.01 and goes to a
    member whose balance is above 0.01; in particular nobody is asked to pay
    themselves, and no zero-amount settlement is ever listed. *)
Theorem get_settlements_shape (self : ExpenseSplitter)
  (group_filter : option string) (settlements : list Settlement.t) :
  get_settlements self group_filter = Ok settlements ->
  Forall (fun s =>
            eps < Settlement.amount s /\
            (exists v,
                Dict.get (Settlement.from s)
                  (calculate_balances self group_filter) = Some v /\
                v < - eps) /\
            (exists v,
                Dict.get (Settlement.to s)
                  (calculate_balances self group_filter) = Some v /\
                eps < v) /\
            Settlement.from s <> Settlement.to s) settlements.
Proof.
  intros H. apply settlements_of_shape; [|exact H].
  apply NoDup_keys_calculate_balances.
Qed.

Lemma get_settlements_shape_witness :
  let self :=
    mkSplitter
      [Expense.mk "id-1" "Dinner" (Q2Qc 90) ["A"] [("A", Q2Qc 90)]
         ["A"; "B"; "C"] [("A", Q2Qc 30); ("B", Q2Qc 30); ("C", Q2Qc 30)]
         "2024-01-01 00:00:00" "General"]
      [] ["A"; "B"; "C"] in
  exists settlements,
    get_settlements self None = Ok settlements /\
    map Settlement.from settlements = ["B"; "C"] /\
    Forall (fun s => eps < Settlement.amount s /\
                     Settlement.from s <> Settlement.to s) settlements.
Proof.
  intros self. eexists. split; [vm_compute; reflexivity|].
  split; [reflexivity|].
  eapply Forall_impl;
    [|apply (get_settlements_shape self None); vm_compute; reflexivity].
  cbv beta. tauto.
Defined.

(** X13.  When no balance is above 0.01, or none is below -0.01,
    [get_settlements] returns the empty list. *)
Theorem get_settlements_nothing_to_settle (self : ExpenseSplitter)
  (group_filter : option string) :
  (forall m v, Dict.get m (calculate_balances self group_filter) = Some v ->
     v <= eps)
  \/ (forall m v, Dict.get m (calculate_balances self group_filter) = Some v ->
        - eps <= v) ->
  get_settlements self group_filter = Ok [].
Proof.
  pose proof (NoDup_keys_calculate_balances self group_filter) as Hnd.
  intros [H|H].
  - apply settlements_of_no_creditor; assumption.
  - apply settlements_of_no_debtor; assumption.
Qed.

Lemma get_settlements_nothing_to_settle_witness :
  get_settlements
    (mkSplitter
       [Expense.mk "id-1" "Dinner" (Q2Qc 90) ["A"] [("A", Q2Qc 90)]
          ["A"; "B"] (zero_splits ["A"; "B"]) "2024-01-01 00:00:00"
          "General"]
       [] ["A"; "B"]) None
  = Ok [].
Proof.
  apply get_settlements_nothing_to_settle. right.
  intros m v H. apply Qcleb_le.
  destruct (string_dec m "A") as [->|Ha].
  - vm_compute in H. injection H as <-. reflexivity.
  - destruct (string_dec m "B") as [->|Hb].
    + vm_compute in H. injection H as <-. reflexivity.
    + exfalso. apply DictFacts.get_Some_In in H.
      rewrite keys_calculate_balances in H.
      apply (proj1 (keys_initial_balances _ _)) in H.
      simpl in H. intuition congruence.
Defined.

(** X14.  The plan is complete for its own thresholds: once the listed
    settlements are paid, planning again on the resulting balances lists
    nothing. *)
Theorem settlements_of_settled_is_empty (self : ExpenseSplitter)
  (group_filter : option string) :
  exists settlements,
    get_settlements self group_filter = Ok settlements /\
    settlements_of
      (settle (calculate_balances self group_filter) settlements)
    = Ok [].
Proof.
  pose proof (NoDup_keys_calculate_balances self group_filter) as Hnd.
  destruct (settlements_of_spec _ Hnd) as [S [Hrun [_ [_ Hside]]]].
  exists S. split; [exact Hrun|].
  assert (HndA : NoDup (Dict.keys
                          (settle (calculate_balances self group_filter) S)))
    by (rewrite keys_settle; exact Hnd).
  destruct Hside as [H|H].
  - apply settlements_of_no_debtor; [exact HndA|].
    intros m v' Hget. destruct (get_settle_inv _ _ _ _ Hget) as [v [Hv ->]].
    apply (H m v Hv).
  - apply settlements_of_no_creditor; [exact HndA|].
    intros m v' Hget. destruct (get_settle_inv _ _ _ _ Hget) as [v [Hv ->]].
    apply (H m v Hv).
Qed.

(** X15.  [get_settlements] lists at most as many settlements as there are
    creditors and debtors together, hence at most as many as there are
    members. *)
Theorem get_settlements_count (self : ExpenseSplitter)
  (group_filter : option string) :
  let before := calculate_balances self group_filter in
  exists settlements,
    get_settlements self group_filter = Ok settlements /\
    (List.length settlements
     <= List.length (filter is_creditor before)
        + List.length (filter is_debtor before))%nat /\
    (List.length (filter is_creditor before)
     + List.length (filter is_debtor before)
     <= List.length (Dict.keys before))%nat.
Proof.
  intros before.
  pose proof (NoDup_keys_calculate_balances self group_filter) as Hnd.
  fold before in Hnd.
  destruct (settlements_of_spec before Hnd) as [S [Hrun _]].
  exists S. split; [exact Hrun|]. split.
  - apply settlements_of_count; assumption.
  - unfold Dict.keys. rewrite length_map.
    apply length_disjoint_filters. exact creditor_not_debtor.
Qed.

(** ** Import, the data file and the page *)

Lemma mem_false_iff {V : Type} (k : string) (d : Dict.t V) :
  Dict.mem k d = false <-> ~ In k (Dict.keys d).
Proof.
  unfold Dict.mem. rewrite <- DictFacts.get_None_iff.
  destruct (Dict.get k d); split; congruence.
Qed.

(** X16.  [import_data] refuses a document that is not an object or that
    lacks the key "expenses" or the key "members": it returns [False] and
    leaves the splitter as it is. *)
Theorem import_data_refuses (self : ExpenseSplitter) :
  (forall data,
     ~ In "expenses" (Dict.keys data) \/ ~ In "members" (Dict.keys data) ->
     import_data self (JObject data) = (self, false))
  /\ (forall j, (forall data, j <> JObject data) ->
        import_data self j = (self, false)).
Proof.
  split.
  - intros data H. unfold import_data.
    destruct H as [H|H]; apply mem_false_iff in H; rewrite H;
      [reflexivity | rewrite andb_false_r; reflexivity].
  - intros j H. destruct j; try reflexivity. exfalso. eapply H. reflexivity.
Qed.

Lemma import_data_refuses_witness :
  import_data (mkSplitter [] [] ["A"])
    (JObject [("expenses", JArray []); ("groups", JObject [])])
  = (mkSplitter [] [] ["A"], false).
Proof.
  apply (proj1 (import_data_refuses (mkSplitter [] [] ["A"]))).
  right. simpl. intuition discriminate.
Defined.

(** X17.  [import_data] replaces the ledger rather than merging into it, and
    the key "groups" is optional: a document with the expenses and the
    members but without "groups" is accepted and leaves no group at all,
    whatever groups the splitter had. *)
Theorem import_data_without_groups (self : ExpenseSplitter)
  (data : list (string * json)) (es : list Expense.t) (ms : list string) :
  Dict.get "expenses" data = Some (JArray (map json_of_expense es)) ->
  Dict.get "members" data = Some (json_of_names ms) ->
  Dict.get "groups" data = None ->
  import_data self (JObject data) = (mkSplitter es [] (py_set ms), true).
Proof.
  intros He Hm Hg. unfold import_data, Dict.mem, get_default.
  rewrite He, Hm, Hg. cbn [andb].
  rewrite expenses_of_json_of_expenses, names_of_json_of_names.
  reflexivity.
Qed.

Lemma import_data_without_groups_witness :
  import_data (mkSplitter [] [("Trip", ["A"])] ["A"])
    (JObject [("members", json_of_names ["B"; "C"]);
              ("expenses", JArray (map json_of_expense []))])
  = (mkSplitter [] [] (py_set ["B"; "C"]), true).
Proof.
  apply import_data_without_groups; reflexivity.
Defined.

(** X18.  What [save_data] writes, [load_data] reads back: a splitter
    constructed from the file has the same expense list, the same groups and
    the same set of member names as the one that saved. *)
Theorem load_data_after_save_data (self : ExpenseSplitter) :
  expenses (load_data (save_data self)) = expenses self
  /\ groups (load_data (save_data self)) = groups self
  /\ (forall name, In name (members (load_data (save_data self)))
                   <-> In name (members self)).
Proof.
  unfold load_data, save_data, get_default.
  cbn [Dict.get String.eqb Ascii.eqb Bool.eqb].
  rewrite expenses_of_json_of_expenses, groups_of_json_of_groups,
    names_of_json_of_names.
  cbn [expenses groups members].
  repeat split; try reflexivity; apply In_py_set.
Qed.

(** X19.  [load_data] is more lenient than [import_data]: a file whose
    document has the expenses and the groups but no "members" key loads with
    an empty registry, while [import_data] refuses the same document; a
    missing file, unreadable text and a document that is not an object all
    give the empty ledger. *)
Theorem load_data_defaults (self : ExpenseSplitter)
  (data : list (string * json)) (es : list Expense.t)
  (gs : Dict.t (list string)) :
  Dict.get "expenses" data = Some (JArray (map json_of_expense es)) ->
  Dict.get "groups" data = Some (json_of_groups gs) ->
  Dict.get "members" data = None ->
  load_data (Document (JObject data)) = mkSplitter es gs []
  /\ import_data self (JObject data) = (self, false)
  /\ load_data NoFile = empty_splitter
  /\ load_data Unreadable = empty_splitter
  /\ (forall j, (forall o, j <> JObject o) ->
        load_data (Document j) = empty_splitter).
Proof.
  intros He Hg Hm. split; [|split; [|split; [|split]]].
  - unfold load_data, get_default. rewrite He, Hg, Hm.
    rewrite expenses_of_json_of_expenses, groups_of_json_of_groups.
    reflexivity.
  - unfold import_data, Dict.mem. rewrite He, Hm. reflexivity.
  - reflexivity.
  - reflexivity.
  - intros j H. destruct j; try reflexivity. exfalso. eapply H. reflexivity.
Qed.

Lemma load_data_defaults_witness :
  load_data
    (Document (JObject [("expenses", JArray (map json_of_expense []));
                        ("groups", json_of_groups [("Trip", ["A"])])]))
  = mkSplitter [] [("Trip", ["A"])] [].
Proof.
  refine (proj1 (load_data_defaults empty_splitter
                   [("expenses", JArray (map json_of_expense []));
                    ("groups", json_of_groups [("Trip", ["A"])])]
                   [] [("Trip", ["A"])] _ _ _)); reflexivity.
Defined.

(** X20.  A click on the enabled "Add Expense" button never runs into the
    division by zero of [add_expense]: when [can_add_expense] holds the call
    made by the page returns the new id, for the equal and custom policies
    always and for the ratio policy when the weights do not sum to zero. *)
Theorem add_expense_clicked_returns
  (self : ExpenseSplitter) (uuid4 now description : string) (amount : Qc)
  (payers : list string) (paid_amounts : Dict.t Qc)
  (split_among : list string) (split_type : string)
  (custom_splits ratio_splits : Dict.t Qc) (selected_group : string)
  (outcome : result (ExpenseSplitter * string)) :
  (split_type = "Ratio" -> py_sum (Dict.values ratio_splits) <> 0) ->
  add_expense_clicked self uuid4 now description amount payers paid_amounts
    split_among split_type custom_splits ratio_splits selected_group
  = Some outcome ->
  exists self', outcome = Ok (self', uuid4).
Proof.
  intros Hratio. unfold add_expense_clicked.
  destruct (can_add_expense _ _ _ _ _ _ _ _) eqn:Hgate; [|discriminate].
  intros [= <-]. unfold can_add_expense in Hgate.
  repeat (apply andb_prop in Hgate; destruct Hgate as [Hgate ?]).
  match goal with
  | H : nonempty split_among = true |- _ => rename H into Hamong
  end.
  match goal with
  | H : (_ || _ || _)%bool = true |- _ => rename H into Htype
  end.
  destruct split_among as [|m rest]; [discriminate|].
  apply orb_prop in Htype. destruct Htype as [Htype|Htype];
    [apply orb_prop in Htype; destruct Htype as [Htype|Htype]|].
  - apply String.eqb_eq in Htype. subst split_type.
    unfold add_expense, compute_splits.
    cbn [py_lower lower_ascii Ascii.nat_of_ascii String.eqb].
    change (py_lower "Equal" =? "equal") with true. cbv iota.
    rewrite equal_splits_nonempty. cbn [bind]. eexists. reflexivity.
  - apply andb_prop in Htype. destruct Htype as [Htype _].
    apply String.eqb_eq in Htype. subst split_type.
    unfold add_expense, compute_splits.
    change (py_lower "Custom" =? "equal") with false.
    change (py_lower "Custom" =? "custom") with true.
    change (py_lower "Custom" =? "ratio") with false.
    change ("Custom" =? "Custom") with true.
    change ("Custom" =? "Ratio") with false. cbv iota.
    destruct custom_splits as [|kv d];
      cbn [andb Dict.truthy Dict.unwrap bind]; eexists; reflexivity.
  - apply andb_prop in Htype. destruct Htype as [Htype Hne].
    apply String.eqb_eq in Htype. subst split_type.
    specialize (Hratio eq_refl).
    destruct ratio_splits as [|kv r]; [discriminate|].
    unfold add_expense, compute_splits, ratio_split.
    change (py_lower "Ratio" =? "equal") with false.
    change (py_lower "Ratio" =? "custom") with false.
    change (py_lower "Ratio" =? "ratio") with true.
    change ("Ratio" =? "Custom") with false.
    change ("Ratio" =? "Ratio") with true. cbv iota.
    cbn [andb Dict.truthy Dict.unwrap].
    rewrite (ratio_entries_weighted _ _ _ _ Hratio). cbn [bind].
    eexists. reflexivity.
Qed.

Lemma add_expense_clicked_returns_witness :
  exists self',
    add_expense (mkSplitter [] [] ["A"; "B"]) "id-1" "2024-01-01 00:00:00"
      "Dinner" (Q2Qc 90) ["A"] [("A", Q2Qc 90)] ["A"; "B"] "equal" None None
      "General"
    = Ok (self', "id-1").
Proof.
  apply (add_expense_clicked_returns (mkSplitter [] [] ["A"; "B"]) "id-1"
           "2024-01-01 00:00:00" "Dinner" (Q2Qc 90) ["A"] [("A", Q2Qc 90)]
           ["A"; "B"] "Equal" [] [] "General").
  - discriminate.
  - vm_compute. reflexivity.
Defined.
